(** * novel_translator: a shallow embedding of the chapter pipeline

    The development follows the Python sources under [app/]:
    - [PyStr]: the fragment of Python's [str] the program relies on
      (code points, [strip], [replace], [split], truthiness);
    - [chunker]: [split_text_into_chunks] of [chapter_translate.py];
    - [PyDict]: Python's insertion-ordered [dict];
    - [Py]: results of calls that may raise, and [try] / [except];
    - [env]: the libraries and files the program finds around it;
    - [PyJson]: JSON documents and the files that hold them;
    - [detect_lang], [glossary], [utils], [chapter_translate],
      [novel_translate]: the functions of the modules of the same name;
    - [samples]: concrete worlds and glossaries for the examples.

    Definitions come first, the theorems about them follow. *)

From Stdlib Require Import List ZArith Lia Bool String Ascii.
Import ListNotations.

Set Implicit Arguments.

(* ================================================================= *)
(** ** Python strings *)

Module PyStr.

(** A Python [str] is a sequence of Unicode code points; [len] counts
    code points, so a code point is a number and not a byte. *)
Definition char := N.
Definition str := list char.

(** ASCII literals of the source. *)
Definition lit (s : string) : str :=
  map N_of_ascii (list_ascii_of_string s).

(** [len(x)] of a string or a list. *)
Definition len {A} (s : list A) : Z := Z.of_nat (List.length s).

(** [bool(s)]: the empty string is the only falsy string. *)
Definition truthy (s : str) : bool :=
  match s with [] => false | _ :: _ => true end.

Definition char_eqb : char -> char -> bool := N.eqb.

Fixpoint str_eqb (a b : str) : bool :=
  match a, b with
  | [], [] => true
  | x :: a', y :: b' => char_eqb x y && str_eqb a' b'
  | _, _ => false
  end.

(** The characters [str.strip()] removes (CPython's
    [_PyUnicode_IsWhitespace]). *)
Definition isspace (c : char) : bool :=
  ((9 <=? c) && (c <=? 13) || (28 <=? c) && (c <=? 32)
   || (c =? 133) || (c =? 160) || (c =? 5760)
   || (8192 <=? c) && (c <=? 8202)
   || (c =? 8232) || (c =? 8233) || (c =? 8239) || (c =? 8287)
   || (c =? 12288))%N.

Fixpoint lstrip (s : str) : str :=
  match s with
  | [] => []
  | c :: s' => if isspace c then lstrip s' else s
  end.

Definition rstrip (s : str) : str := rev (lstrip (rev s)).

Definition strip (s : str) : str := lstrip (rstrip s).

(** [s.replace(a, b)] for one-character [a] and [b]. *)
Definition replace_char (a b : char) (s : str) : str :=
  map (fun c => if char_eqb c a then b else c) s.

(** [s.split(sep)] for the two-character separator [a b]: the text
    is scanned from the left and cut at every occurrence that does
    not overlap the previous one; [acc] holds the current piece in
    reverse. *)
Fixpoint split2_from (a b : char) (acc : str) (s : str) : list str :=
  match s with
  | [] => [rev acc]
  | c :: s' =>
      match s' with
      | d :: s'' =>
          if char_eqb c a && char_eqb d b
          then rev acc :: split2_from a b [] s''
          else split2_from a b (c :: acc) s'
      | [] => [rev (c :: acc)]
      end
  end.

Definition split2 (a b : char) (s : str) : list str :=
  split2_from a b [] s.

(** [sep.join(parts)]. *)
Fixpoint join (sep : str) (parts : list str) : str :=
  match parts with
  | [] => []
  | [p] => p
  | p :: rest => p ++ sep ++ join sep rest
  end.

(** [needle in haystack] for a list of strings. *)
Fixpoint str_in (x : str) (l : list str) : bool :=
  match l with
  | [] => false
  | y :: l' => str_eqb y x || str_in x l'
  end.

Definition newline : char := 10%N.
Definition space : char := 32%N.
Definition period : char := 46%N.

End PyStr.
Import PyStr.

(* ================================================================= *)
(** ** chapter_translate.split_text_into_chunks *)

Module chunker.

(** The suffix [". "] that is put back after every sentence. *)
Definition dot_space : str := [period; space].

(** [text.replace('\n', ' ').split('. ')] *)
Definition sentences_of (text : str) : list str :=
  split2 period space (replace_char newline space text).

(** One turn of the [for sentence in sentences] loop on the pair
    [(chunks, current_chunk)]. *)
Definition chunk_step (max_chunk_size : Z)
    (st : list str * str) (sentence : str) : list str * str :=
  let '(chunks, current_chunk) := st in
  if (len current_chunk + len sentence + 2 <=? max_chunk_size)%Z
  then (chunks, current_chunk ++ sentence ++ dot_space)
  else
    ((if truthy current_chunk
      then chunks ++ [strip current_chunk] else chunks),
     sentence ++ dot_space).

Definition split_text_into_chunks (text : str) (max_chunk_size : Z)
    : list str :=
  let sentences := sentences_of text in
  let '(chunks, current_chunk) :=
    fold_left (chunk_step max_chunk_size) sentences ([], []) in
  if truthy current_chunk
  then chunks ++ [strip current_chunk] else chunks.

(** The default [max_chunk_size = 512]. *)
Definition default_max_chunk_size : Z := 512.

End chunker.
Import chunker.

(* ================================================================= *)
(** ** Python dictionaries *)

Module PyDict.

(** A [dict] with [str] keys keeps its items in insertion order, and
    the program iterates over them ([merge_glossary]), so it is an
    association list.  [set] overwrites in place or appends, as
    [d[k] = v] does. *)
Definition dict (V : Type) := list (str * V).

Section Ops.
Variable V : Type.

Fixpoint get (d : dict V) (k : str) : option V :=
  match d with
  | [] => None
  | (k', v) :: d' => if str_eqb k' k then Some v else get d' k
  end.

(** [d.get(k, default)] *)
Definition get_default (d : dict V) (k : str) (default : V) : V :=
  match get d k with Some v => v | None => default end.

(** [k in d] *)
Definition contains (d : dict V) (k : str) : bool :=
  match get d k with Some _ => true | None => false end.

(** [d[k] = v] *)
Fixpoint set (d : dict V) (k : str) (v : V) : dict V :=
  match d with
  | [] => [(k, v)]
  | (k', v') :: d' =>
      if str_eqb k' k then (k', v) :: d' else (k', v') :: set d' k v
  end.

(** [d.pop(k, None)] / [del d[k]] *)
Fixpoint remove (d : dict V) (k : str) : dict V :=
  match d with
  | [] => []
  | (k', v') :: d' =>
      if str_eqb k' k then d' else (k', v') :: remove d' k
  end.

Definition keys (d : dict V) : list str := map fst d.
Definition items (d : dict V) : list (str * V) := d.

(** No key occurs twice: what separates a [dict] from an arbitrary
    list of pairs. *)
Definition wf (d : dict V) : Prop := NoDup (keys d).
End Ops.

End PyDict.

(* ================================================================= *)
(** ** Exceptions and [try] / [except] *)

Module Py.

(** The exception classes the program names or meets.  Every one of
    them derives from [Exception]; messages are only logged by the
    program and are left out. *)
Inductive exn_class :=
| Exception | OSError | FileNotFoundError | ImportError
| ModuleNotFoundError | NameError | UnboundLocalError | ValueError
| UnicodeDecodeError | UnicodeEncodeError | JSONDecodeError
| TypeError | AttributeError | RuntimeError | LangDetectException.

Definition exn := exn_class.

(** The direct base class. *)
Definition base (c : exn_class) : option exn_class :=
  match c with
  | Exception => None
  | FileNotFoundError => Some OSError
  | ModuleNotFoundError => Some ImportError
  | UnboundLocalError => Some NameError
  | UnicodeDecodeError | UnicodeEncodeError | JSONDecodeError =>
      Some ValueError
  | _ => Some Exception
  end.

Definition class_eqb (a b : exn_class) : bool :=
  match a, b with
  | Exception, Exception | OSError, OSError
  | FileNotFoundError, FileNotFoundError | ImportError, ImportError
  | ModuleNotFoundError, ModuleNotFoundError | NameError, NameError
  | UnboundLocalError, UnboundLocalError | ValueError, ValueError
  | UnicodeDecodeError, UnicodeDecodeError
  | UnicodeEncodeError, UnicodeEncodeError
  | JSONDecodeError, JSONDecodeError | TypeError, TypeError
  | AttributeError, AttributeError | RuntimeError, RuntimeError
  | LangDetectException, LangDetectException => true
  | _, _ => false
  end.

(** [isinstance(e, c)]: the class of [e] is [c] or derives from it
    (the hierarchy above is three levels deep). *)
Definition isinstance (e : exn) (c : exn_class) : bool :=
  class_eqb e c
  || match base e with
     | None => false
     | Some b =>
         class_eqb b c
         || match base b with
            | None => false
            | Some b' => class_eqb b' c
            end
     end.

Inductive result (A : Type) :=
| Ok (a : A)
| Raise (e : exn).
Arguments Ok {A} a.
Arguments Raise {A} e.

Definition bind {A B} (r : result A) (k : A -> result B) : result B :=
  match r with Ok a => k a | Raise e => Raise e end.

(** One [except C as e: body] clause.  The expression [C] is
    evaluated when the clause is tried, and that evaluation can
    itself raise (a name that is not bound). *)
Record handler (A : Type) := Handler {
  h_class : result exn_class;
  h_body : exn -> result A
}.

(** The clauses are tried in order.  An exception raised while a
    clause is matched, or by a handler body, leaves the statement:
    the later clauses do not see it. *)
Fixpoint dispatch {A} (e : exn) (hs : list (handler A)) : result A :=
  match hs with
  | [] => Raise e
  | h :: hs' =>
      match h_class h with
      | Raise e' => Raise e'
      | Ok c => if isinstance e c then h_body h e else dispatch e hs'
      end
  end.

Definition try_except {A} (body : result A) (hs : list (handler A))
    : result A :=
  match body with
  | Ok a => Ok a
  | Raise e => dispatch e hs
  end.

Definition raises {A} (r : result A) : bool :=
  match r with Ok _ => false | Raise _ => true end.

End Py.
Import Py.

Notation "x <- c1 ;; c2" := (Py.bind c1 (fun x => c2))
  (at level 61, c1 at next level, right associativity).

(* ================================================================= *)
(** ** What the program finds around it *)

Module env.

(** The [inputs] dictionary handed to [model_session.run]. *)
Record run_inputs := RunInputs {
  input_text : list str;
  source_lang : list str;
  target_lang : list str
}.

(** A loaded ONNX session: [run(None, inputs)] returns a list of
    output batches or raises. *)
Record session := Session {
  run : run_inputs -> result (list (list str))
}.

(** The installed libraries, the files and the methods of [str]
    whose tables are Unicode's.  [None] for a library means that
    importing it raises [ImportError]. *)
Record World := {
  (** [str.lower()] and [str.upper()] *)
  str_lower : str -> str;
  str_upper : str -> str;
  (** [langdetect.detect] *)
  langdetect : option (str -> result str);
  (** [os.path.exists] *)
  path_exists : str -> bool;
  (** [open(path, 'r', encoding=enc).read()] *)
  open_read : str -> str -> result str;
  (** [onnxruntime.InferenceSession] *)
  onnxruntime : option (str -> result session);
  (** [emotion.apply_emotion], whose scores are floating point *)
  apply_emotion : str -> result str
}.

End env.
Import env.

(* ================================================================= *)
(** ** detect_lang.py *)

Module detect_lang.

(** [p] is a prefix of [s]. *)
Fixpoint starts_with (p s : str) : bool :=
  match p, s with
  | [], _ => true
  | _ :: _, [] => false
  | a :: p', b :: s' => char_eqb a b && starts_with p' s'
  end.

(** [s.count(p)] for a non-empty [p]: occurrences are counted from
    the left and do not overlap; [skip] characters of the last
    occurrence are still to be passed. *)
Fixpoint count_from (p : str) (skip : nat) (s : str) : nat :=
  match s with
  | [] => 0
  | _ :: s' =>
      match skip with
      | S k => count_from p k s'
      | O =>
          if starts_with p s
          then S (count_from p (List.length p - 1) s')
          else count_from p 0 s'
      end
  end.

Definition count (s p : str) : Z := Z.of_nat (count_from p 0 s).

Definition patterns : PyDict.dict (list str) :=
  [
  (lit "es",
    [
     lit "el "; lit "la "; lit "de "; lit "que "; lit "y "; lit "a ";
     lit "en "; lit "un "; lit "es "; lit "se "; lit "no "; lit "te ";
     lit "lo "; lit "le "; lit "da "; lit "su "; lit "por "; lit "son ";
     lit "con "; lit "para "; lit "una "; lit "son "; lit "del ";
     lit "al "; [113; 117; 233; 32]; [109; 225; 115]
    ]%N);
  (lit "fr",
    [
     lit "le "; lit "de "; lit "et "; [224; 32]; lit "un "; lit "il ";
     [234; 116; 114; 101; 32]; lit "et "; lit "en "; lit "avoir ";
     lit "que "; lit "pour "; lit "dans "; lit "ce "; lit "son ";
     lit "une "; lit "sur "; lit "avec "; lit "ne "; lit "se ";
     lit "pas "; lit "tout "; lit "plus "; lit "par "; lit "grand";
     [111; 249]; lit "ou"; lit "qui"
    ]%N);
  (lit "de",
    [
     lit "der "; lit "die "; lit "und "; lit "in "; lit "den ";
     lit "von "; lit "zu "; lit "das "; lit "mit "; lit "sich ";
     lit "des "; lit "auf "; [102; 252; 114; 32]; lit "ist "; lit "im ";
     lit "dem "; lit "nicht "; lit "ein "; lit "eine "; lit "als ";
     lit "auch "; lit "es "; lit "an "; lit "werden"; lit "aus";
     lit "er"; lit "hat"; lit "dass"
    ]%N);
  (lit "it",
    [
     lit "il "; lit "di "; lit "che "; lit "e "; lit "la "; lit "per ";
     lit "un "; lit "in "; lit "con "; lit "del "; lit "da "; lit "a ";
     lit "al "; lit "sono "; lit "le "; lit "si "; lit "gli "; lit "una";
     lit "dei"; lit "nel"; lit "alla"; lit "come"; [112; 105; 249];
     lit "anche"; lit "tutto"; [103; 105; 224]
    ]%N);
  (lit "pt",
    [
     lit "de "; lit "a "; lit "o "; lit "que "; lit "e "; lit "do ";
     lit "da "; lit "em "; lit "um "; lit "para "; [233; 32]; lit "com ";
     [110; 227; 111; 32]; lit "uma "; lit "os "; lit "no "; lit "se ";
     lit "na "; lit "por "; lit "mais"; lit "das"; lit "dos"; lit "como";
     lit "mas"; lit "foi"; lit "ao"; lit "ele"
    ]%N);
  (lit "ja",
    [
     [12398]; [12395]; [12399]; [12434]; [12383]; [12364]; [12391];
     [12390]; [12392]; [12375]; [12428]; [12373]; [12354; 12427];
     [12356; 12427]; [12418]; [12377; 12427]; [12363; 12425]; [12394];
     [12371; 12392]; [12392; 12375; 12390]; [12356]; [12420];
     [12428; 12427]; [12394; 12393]; [12394; 12387]; [12414; 12383];
     [12381; 12398]; [12371; 12428]
    ]%N);
  (lit "ko",
    [
     [51060]; [51032]; [44032]; [51012]; [45716]; [50640]; [44284];
     [47196]; [51004; 47196]; [50640; 49436]; [50752]; [54620]; [54616];
     [46104]; [51080]; [46308]; [44163]; [49688]; [46321]; [44057];
     [54980]; [51204]; [45796; 49884]; [46608]; [53685; 54644];
     [50948; 54644]; [45824; 54620]; [46384; 47480]
    ]%N);
  (lit "zh",
    [
     [30340]; [19968]; [26159]; [22312]; [19981]; [20102]; [26377];
     [21644]; [20154]; [36825]; [20013]; [22823]; [20026]; [19978];
     [20010]; [22269]; [25105]; [20197]; [35201]; [20182]; [26102];
     [26469]; [29992]; [20204]; [29983]; [21040]; [20316]; [22320];
     [20110]; [20986]; [23601]
    ]%N);
  (lit "ru",
    [
     [1080; 32]; [1074; 32]; [1085; 1077; 32]; [1085; 1072; 32];
     [1103; 32]; [1073; 1099; 1090; 1100; 32]; [1086; 1085; 32];
     [1089; 32]; [1095; 1090; 1086; 32]; [1072; 32]; [1087; 1086; 32];
     [1101; 1090; 1086; 32]; [1086; 1085; 1072; 32];
     [1101; 1090; 1086; 1090; 32]; [1082; 32]; [1085; 1086; 32];
     [1086; 1085; 1080; 32]; [1084; 1099; 32]; [1082; 1072; 1082; 32];
     [1080; 1079; 32]; [1091; 32];
     [1082; 1086; 1090; 1086; 1088; 1099; 1081; 32]; [1090; 1086; 32];
     [1079; 1072; 32]; [1089; 1074; 1086; 1081; 32];
     [1095; 1090; 1086; 32]; [1078; 1077]
    ]%N)
  ].

(** [max(scores, key=scores.get)]: the first key, in iteration
    order, whose score is the largest. *)
Fixpoint argmax_from (best : str) (best_score : Z)
    (rest : list (str * Z)) : str :=
  match rest with
  | [] => best
  | (k, v) :: rest' =>
      if (best_score <? v)%Z then argmax_from k v rest'
      else argmax_from best best_score rest'
  end.

Definition max_key (scores : PyDict.dict Z) : option str :=
  match scores with
  | [] => None
  | (k, v) :: rest => Some (argmax_from k v rest)
  end.

(** [any(lo <= ord(char) <= hi for char in text)] *)
Definition any_in_range (lo hi : N) (text : str) : bool :=
  existsb (fun c => (lo <=? c)%N && (c <=? hi)%N) text.

Definition script_sniffing (text : str) : str :=
  if any_in_range 19968 40959 text then lit "zh"
  else if any_in_range 12352 12447 text then lit "ja"
  else if any_in_range 12448 12543 text then lit "ja"
  else if any_in_range 44032 55215 text then lit "ko"
  else if any_in_range 1024 1279 text then lit "ru"
  else lit "en".

Definition fallback_language_detection (W : World) (text : str) : str :=
  if negb (truthy text) then lit "en"
  else
    let text_lower := str_lower W text in
    let scores : PyDict.dict Z :=
      map (fun '(lang, words) =>
             (lang,
              fold_left (fun score word => (score + count text_lower word)%Z)
                        words 0%Z))
          patterns in
    match max_key scores with
    | Some detected_lang =>
        if (0 <? PyDict.get_default scores detected_lang 0)%Z
        then detected_lang
        else script_sniffing text
    | None => script_sniffing text
    end.

(** [language_mapping.get(detected_lang, detected_lang)] *)
Definition language_mapping : PyDict.dict str :=
  [(lit "zh-cn", lit "zh"); (lit "zh-tw", lit "zh")].

(** The [try] body of [detect_language].  [from langdetect import
    detect, LangDetectException] makes both names locals of the
    function; the first component tells whether the import bound
    them. *)
Definition detect_body (W : World) (clean_text : str)
    : bool * result str :=
  match langdetect W with
  | None => (false, Raise ModuleNotFoundError)
  | Some detect =>
      (true,
       detected_lang <- detect clean_text ;;
       Ok (PyDict.get_default language_mapping detected_lang
             detected_lang))
  end.

(** Reading the local name [LangDetectException]. *)
Definition load_local_LangDetectException (bound : bool)
    : result exn_class :=
  if bound then Ok LangDetectException else Raise UnboundLocalError.

Definition detect_language (W : World) (text : str) : result str :=
  if negb (truthy text) || negb (truthy (strip text)) then Ok (lit "en")
  else
    let clean_text := firstn 1000 (strip text) in
    let '(bound, body) := detect_body W clean_text in
    let fallback :=
      fun _ : exn => Ok (fallback_language_detection W clean_text) in
    try_except body
      [ Handler (load_local_LangDetectException bound) fallback;
        Handler (Ok ImportError) fallback;
        Handler (Ok Exception) fallback ].

(** The set literal of [is_supported_language]; only membership is
    asked of it. *)
Definition supported_languages : list str :=
  [lit "en"; lit "es"; lit "fr"; lit "de"; lit "it"; lit "pt"; lit "ja";
   lit "ko"; lit "zh"; lit "ru"].

Definition is_supported_language (lang_code : str) : bool :=
  str_in lang_code supported_languages.

End detect_lang.
Import detect_lang.

(* ================================================================= *)
(** ** JSON documents and the files that hold them *)

Module PyJson.

#[local] Unset Elimination Schemes.
Inductive json :=
| JNull
| JBool (b : bool)
| JInt (n : Z)
| JStr (s : str)
| JArr (l : list json)
| JObj (fields : list (str * json)).
#[local] Set Elimination Schemes.

(** What [path] holds after a write: a whole document, or the
    remains of a write that failed half way. *)
Inductive file_content :=
| Document (j : json)
| Damaged.

(** The part of the file system [save_to_file] and [load_from_file]
    touch: the files, and the paths [open(path, 'w')] accepts. *)
Record store := Store {
  files : PyDict.dict file_content;
  can_open_w : str -> bool
}.

(** A code point the UTF-8 codec writes: no surrogate, and inside
    the Unicode range. *)
Definition encodable_char (c : char) : bool :=
  ((c <? 55296) || (57343 <? c) && (c <=? 1114111))%N.

Definition encodable (s : str) : bool := forallb encodable_char s.

(** Every string of the document can be written. *)
Fixpoint writable (j : json) : bool :=
  match j with
  | JNull | JBool _ | JInt _ => true
  | JStr s => encodable s
  | JArr l => forallb writable l
  | JObj fields =>
      forallb (fun kv => encodable (fst kv) && writable (snd kv)) fields
  end.

(** [with open(path, 'w', encoding='utf-8') as f:
       json.dump(data, f, ensure_ascii=False, indent=2)] *)
Definition dump_to (st : store) (path : str) (data : json)
    : result unit * store :=
  if negb (can_open_w st path) then (Raise OSError, st)
  else if writable data
  then (Ok tt, Store (PyDict.set (files st) path (Document data))
                     (can_open_w st))
  else (Raise UnicodeEncodeError,
        Store (PyDict.set (files st) path Damaged) (can_open_w st)).

(** [with open(path, 'r', encoding='utf-8') as f: json.load(f)] *)
Definition load_from (st : store) (path : str) : result json :=
  match PyDict.get (files st) path with
  | None => Raise FileNotFoundError
  | Some Damaged => Raise JSONDecodeError
  | Some (Document j) => Ok j
  end.

(** [data.get(key, {})] on the loaded value; a document that is not
    an object has no [get]. *)
Definition get_field (data : json) (key : str) : result json :=
  match data with
  | JObj fields => Ok (PyDict.get_default fields key (JObj []))
  | _ => Raise AttributeError
  end.

(** Reading a loaded value at the types the glossary declares for
    its three maps; [None] when the value has another shape. *)
Definition as_str (j : json) : option str :=
  match j with JStr s => Some s | _ => None end.

Definition as_int (j : json) : option Z :=
  match j with JInt n => Some n | _ => None end.

Fixpoint all_some {A B} (f : A -> option B) (l : list A)
    : option (list B) :=
  match l with
  | [] => Some []
  | x :: l' =>
      match f x, all_some f l' with
      | Some y, Some ys => Some (y :: ys)
      | _, _ => None
      end
  end.

Definition as_str_list (j : json) : option (list str) :=
  match j with JArr l => all_some as_str l | _ => None end.

Definition as_dict {V} (f : json -> option V) (j : json)
    : option (PyDict.dict V) :=
  match j with
  | JObj fields =>
      all_some (fun kv => match f (snd kv) with
                          | Some v => Some (fst kv, v)
                          | None => None
                          end) fields
  | _ => None
  end.

Definition of_dict {V} (f : V -> json) (d : PyDict.dict V) : json :=
  JObj (map (fun kv => (fst kv, f (snd kv))) d).

End PyJson.
Import PyJson.

(* ================================================================= *)
(** ** glossary.py *)

Module glossary.

Record Glossary := {
  _terms : PyDict.dict str;
  _usage_count : PyDict.dict Z;
  _context : PyDict.dict (list str)
}.

(** [Glossary()] *)
Definition empty : Glossary :=
  {| _terms := []; _usage_count := []; _context := [] |}.

(** [l[-5:]] *)
Definition last5 (l : list str) : list str :=
  skipn (List.length l - 5) l.

(** The [if context:] block of [add_term], for the stripped key. *)
Definition add_context (ctx : PyDict.dict (list str))
    (original context : str) : PyDict.dict (list str) :=
  let ctx1 :=
    if negb (PyDict.contains ctx original)
    then PyDict.set ctx original [] else ctx in
  let history := PyDict.get_default ctx1 original [] in
  if negb (str_in context history)
  then
    let history' := history ++ [context] in
    if (5 <? len history')%Z
    then PyDict.set ctx1 original (last5 history')
    else PyDict.set ctx1 original history'
  else ctx1.

Definition add_term (g : Glossary) (original translated : str)
    (context : option str) : Glossary :=
  if negb (truthy original) || negb (truthy (strip original)) then g
  else
    let original := strip original in
    let translated :=
      if truthy translated then strip translated else [] in
    {| _terms := PyDict.set (_terms g) original translated;
       _usage_count :=
         PyDict.set (_usage_count g) original
           (PyDict.get_default (_usage_count g) original 0 + 1)%Z;
       _context :=
         match context with
         | Some c =>
             if truthy c then add_context (_context g) original c
             else _context g
         | None => _context g
         end |}.

Definition get_translation (g : Glossary) (original : str)
    : option str :=
  if negb (truthy original) || negb (truthy (strip original)) then None
  else
    let original := strip original in
    match PyDict.get (_terms g) original with
    | Some translation =>
        if truthy translation && truthy (strip translation)
        then Some translation else None
    | None => None
    end.

Definition has_term (g : Glossary) (original : str) : bool :=
  if truthy original then PyDict.contains (_terms g) (strip original)
  else false.

Definition remove_term (g : Glossary) (original : str)
    : bool * Glossary :=
  if negb (truthy original) || negb (truthy (strip original))
  then (false, g)
  else
    let original := strip original in
    if PyDict.contains (_terms g) original
    then (true,
          {| _terms := PyDict.remove (_terms g) original;
             _usage_count := PyDict.remove (_usage_count g) original;
             _context := PyDict.remove (_context g) original |})
    else (false, g).

Definition get_usage_count (g : Glossary) (original : str) : Z :=
  PyDict.get_default (_usage_count g)
    (if truthy original then strip original else []) 0%Z.

Definition get_context (g : Glossary) (original : str) : list str :=
  PyDict.get_default (_context g)
    (if truthy original then strip original else []) [].

Definition get_all_terms (g : Glossary) : PyDict.dict str := _terms g.

Definition get_frequent_terms (g : Glossary) (min_usage : Z)
    : PyDict.dict str :=
  filter (fun kv =>
            (min_usage <=? PyDict.get_default (_usage_count g) (fst kv) 0)%Z)
         (_terms g).

Definition with_usage (g : Glossary) (u : PyDict.dict Z) : Glossary :=
  {| _terms := _terms g; _usage_count := u; _context := _context g |}.

(** One turn of the loop of [merge_glossary] over the items of
    [other_glossary.get_all_terms()]. *)
Definition merge_step (other : Glossary) (prefer_existing : bool)
    (self : Glossary) (item : str * str) : Glossary :=
  let '(original, translated) := item in
  if PyDict.contains (_terms self) original
  then
    let self1 :=
      if negb prefer_existing
         || negb (truthy (PyDict.get_default (_terms self) original []))
      then add_term self original translated None
      else self in
    with_usage self1
      (PyDict.set (_usage_count self1) original
         (PyDict.get_default (_usage_count self1) original 0
          + get_usage_count other original)%Z)
  else
    let self1 := add_term self original translated None in
    with_usage self1
      (PyDict.set (_usage_count self1) original
         (get_usage_count other original)).

(** [self.merge_glossary(other_glossary, prefer_existing)] for two
    distinct glossaries. *)
Definition merge_glossary (self other : Glossary)
    (prefer_existing : bool) : Glossary :=
  fold_left (merge_step other prefer_existing)
            (PyDict.items (get_all_terms other)) self.

Definition clear (g : Glossary) : Glossary := empty.

Definition size (g : Glossary) : Z := len (PyDict.keys (_terms g)).

Definition key_terms : str := lit "terms".
Definition key_usage_count : str := lit "usage_count".
Definition key_context : str := lit "context".

(** The [glossary_data] dictionary of [save_to_file]. *)
Definition glossary_data (g : Glossary) : json :=
  JObj [ (key_terms, of_dict JStr (_terms g));
         (key_usage_count, of_dict JInt (_usage_count g));
         (key_context,
          of_dict (fun l => JArr (map JStr l)) (_context g)) ].

Definition save_to_file (g : Glossary) (file_path : str) (st : store)
    : bool * store :=
  let '(r, st') := dump_to st file_path (glossary_data g) in
  (match try_except (_ <- r ;; Ok true)
           [Handler (Ok Exception) (fun _ => Ok false)] with
   | Ok b => b
   | Raise _ => false
   end, st').

(** What [load_from_file] stores in the three attributes. *)
Definition loaded_fields (data : json)
    : result (json * json * json) :=
  t <- get_field data key_terms ;;
  u <- get_field data key_usage_count ;;
  c <- get_field data key_context ;;
  Ok (t, u, c).

(** [load_from_file]: the flag returned and the glossary afterwards.
    The result is [None] when the document assigns to an attribute a
    value that is not of its declared type, which an untyped
    assignment accepts and this record cannot hold. *)
Definition load_from_file (g : Glossary) (file_path : str) (st : store)
    : option (bool * Glossary) :=
  if negb (PyDict.contains (files st) file_path) then Some (false, g)
  else
    match try_except
            (data <- load_from st file_path ;;
             f <- loaded_fields data ;; Ok (Some f))
            [Handler (Ok Exception) (fun _ => Ok None)] with
    | Ok (Some (t, u, c)) =>
        match as_dict as_str t, as_dict as_int u,
              as_dict as_str_list c with
        | Some terms, Some usage, Some context =>
            Some (true, {| _terms := terms; _usage_count := usage;
                           _context := context |})
        | _, _, _ => None
        end
    | _ => Some (false, g)
    end.

(** What the operations below keep true of a glossary, starting from
    [Glossary()]: the three maps are dictionaries, every term is
    stored trimmed and is not empty, every translation is stored
    trimmed, and a context history has at most five entries, all
    different. *)
Definition well_formed (g : Glossary) : Prop :=
  PyDict.wf (_terms g) /\ PyDict.wf (_usage_count g)
  /\ PyDict.wf (_context g)
  /\ (forall k v, In (k, v) (_terms g) ->
        strip k = k /\ k <> [] /\ strip v = v)
  /\ (forall k h, In (k, h) (_context g) -> (len h <= 5)%Z /\ NoDup h).

End glossary.
Import glossary.

(* ================================================================= *)
(** ** utils.read_text *)

Module utils.

Definition utf_8 : str := lit "utf-8".

Definition encodings (encoding : str) : list str :=
  [encoding; utf_8; lit "latin-1"; lit "cp1252"; lit "iso-8859-1"].

(** The [for enc in encodings] loop.  A turn returns the content,
    goes on to the next encoding ([Ok None] of the inner [try]) or
    raises; the value of a loop that ends without [return] is
    Python's [None]. *)
Fixpoint read_loop (W : World) (file_path last : str) (encs : list str)
    : result (option str) :=
  match encs with
  | [] => Ok None
  | enc :: rest =>
      match try_except
              (content <- open_read W file_path enc ;; Ok (Some content))
              [ Handler (Ok UnicodeDecodeError)
                  (fun _ => if str_eqb enc last
                            then Raise Exception else Ok None);
                Handler (Ok Exception) (fun _ => Raise Exception) ]
      with
      | Ok (Some content) => Ok (Some content)
      | Ok None => read_loop W file_path last rest
      | Raise e => Raise e
      end
  end.

Definition read_text (W : World) (file_path encoding : str)
    : result (option str) :=
  if negb (path_exists W file_path) then Raise FileNotFoundError
  else
    let encs := encodings encoding in
    read_loop W file_path (last encs []) encs.

(** [s.strip(chars)]: the characters of [chars] are removed from both
    ends. *)
Definition char_in (c : char) (chars : str) : bool :=
  existsb (char_eqb c) chars.

Fixpoint lstrip_chars (chars s : str) : str :=
  match s with
  | [] => []
  | c :: s' => if char_in c chars then lstrip_chars chars s' else s
  end.

Definition strip_chars (chars s : str) : str :=
  lstrip_chars chars (rev (lstrip_chars chars (rev s))).

(** The nine characters of [invalid_chars]: less-than, greater-than,
    colon, double quote, slash, backslash, bar, question mark, star. *)
Definition invalid_chars : str := [60; 62; 58; 34; 47; 92; 124; 63; 42]%N.

Definition underscore : char := 95%N.

Definition clean_filename (filename : str) : str :=
  let cleaned :=
    fold_left (fun cleaned char => replace_char char underscore cleaned)
              invalid_chars filename in
  let cleaned := strip_chars (lit " .") cleaned in
  if negb (truthy cleaned) then lit "unnamed_file" else cleaned.

(** [p in s] for strings. *)
Fixpoint substring (p s : str) : bool :=
  starts_with p s
  || match s with
     | [] => false
     | _ :: s' => substring p s'
     end.

Definition validate_file_path (W : World) (file_path : str)
    (must_exist : bool) : bool * str :=
  if negb (truthy file_path) then (false, lit "File path is empty")
  else if must_exist && negb (path_exists W file_path)
  then (false, lit "File does not exist: " ++ file_path)
  else if substring (lit "..") file_path || starts_with (lit "/") file_path
  then (false, lit "Invalid file path (security concern)")
  else (true, []).

End utils.
Import utils.

(* ================================================================= *)
(** ** chapter_translate.py *)

Module chapter_translate.

Definition models_dir : str := lit "models".

(** [os.path.join(models_dir, name)] *)
Definition path_join (dir name : str) : str := dir ++ lit "/" ++ name.

Definition load_translation_model (W : World)
    (source_lang target_lang : str) : result (option session) :=
  try_except
    (match onnxruntime W with
     | None => Raise ModuleNotFoundError
     | Some InferenceSession =>
         let model_path :=
           if str_eqb source_lang (lit "en")
           then path_join models_dir
                  (lit "translation_en2mul_quantized.onnx")
           else path_join models_dir
                  (lit "translation_mul2en_quantized.onnx") in
         if negb (path_exists W model_path) then Ok None
         else
           session <- InferenceSession model_path ;;
           Ok (Some session)
     end)
    [ Handler (Ok ImportError) (fun _ => Ok None);
      Handler (Ok Exception) (fun _ => Ok None) ].

(** [f"[{target_lang.upper()}] {text_chunk}"] *)
Definition placeholder (W : World) (target_lang text_chunk : str) : str :=
  lit "[" ++ str_upper W target_lang ++ lit "] " ++ text_chunk.

(** [outputs[0][0] if outputs and len(outputs[0]) > 0 else text_chunk] *)
Definition first_output (outputs : list (list str)) (text_chunk : str)
    : str :=
  match outputs with
  | (translated :: _) :: _ => translated
  | _ => text_chunk
  end.

Definition translate_text_chunk (W : World) (text_chunk : str)
    (model_session : option session) (source_lang target_lang : str)
    : result str :=
  match model_session with
  | None => Ok (placeholder W target_lang text_chunk)
  | Some model =>
      try_except
        (let inputs :=
           RunInputs [text_chunk] [source_lang] [target_lang] in
         outputs <- run model inputs ;;
         Ok (first_output outputs text_chunk))
        [ Handler (Ok Exception)
            (fun _ => Ok (placeholder W target_lang text_chunk)) ]
  end.

(** The body of [for i, chunk in enumerate(chunks)]: the translated
    chunk that is appended, and the chapter glossary afterwards. *)
Definition translate_one (W : World) (model_session : option session)
    (source_lang target_lang : str) (chapter_glossary : Glossary)
    (chunk : str) : result str * Glossary :=
  let reused :=
    match get_translation chapter_glossary chunk with
    | Some t => if truthy t then Some t else None
    | None => None
    end in
  let '(translated, g) :=
    match reused with
    | Some t => (Ok t, chapter_glossary)
    | None =>
        match translate_text_chunk W chunk model_session
                source_lang target_lang with
        | Ok t => (Ok t, add_term chapter_glossary chunk t None)
        | Raise e => (Raise e, chapter_glossary)
        end
    end in
  (translated_chunk <- translated ;;
   try_except (apply_emotion W translated_chunk)
     [Handler (Ok Exception) (fun _ => Ok translated_chunk)],
   g).

Fixpoint translate_chunks (W : World) (model_session : option session)
    (source_lang target_lang : str) (chunks : list str)
    (chapter_glossary : Glossary) (translated_chunks : list str)
    : result (list str) * Glossary :=
  match chunks with
  | [] => (Ok translated_chunks, chapter_glossary)
  | chunk :: rest =>
      match translate_one W model_session source_lang target_lang
              chapter_glossary chunk with
      | (Ok t, g) =>
          translate_chunks W model_session source_lang target_lang
            rest g (translated_chunks ++ [t])
      | (Raise e, g) => (Raise e, g)
      end
  end.

(** Lines 138-150 of [translate_chapter]: the text that was read and
    [source_lang], the language detected for it.  Detection is only
    reached for a text that is not blank. *)
Inductive opening :=
| Failed (e : exn)
| EmptyChapter
| Detected (original_text source_lang : str).

Definition open_chapter (W : World) (file_path : str) : opening :=
  match try_except (read_text W file_path utf_8)
          [Handler (Ok FileNotFoundError)
             (fun _ => Raise FileNotFoundError)] with
  | Raise e => Failed e
  | Ok None => Failed AttributeError
  | Ok (Some original_text) =>
      if negb (truthy (strip original_text)) then EmptyChapter
      else
        match detect_language W original_text with
        | Raise e => Failed e
        | Ok source_lang => Detected original_text source_lang
        end
  end.

(** [translate_chapter(file_path, target_lang)] with the module-level
    [chapter_glossary] passed in and out. *)
Definition translate_chapter (W : World) (file_path target_lang : str)
    (chapter_glossary : Glossary) : result str * Glossary :=
  match open_chapter W file_path with
  | Failed e => (Raise e, chapter_glossary)
  | EmptyChapter => (Ok [], chapter_glossary)
  | Detected original_text source_lang =>
      if str_eqb source_lang target_lang
      then (Ok original_text, chapter_glossary)
      else
        match load_translation_model W source_lang target_lang with
        | Raise e => (Raise e, chapter_glossary)
        | Ok model_session =>
            let chunks :=
              split_text_into_chunks original_text
                default_max_chunk_size in
            match translate_chunks W model_session source_lang
                    target_lang chunks chapter_glossary [] with
            | (Ok translated_chunks, g) =>
                (Ok (join (lit " ") translated_chunks), g)
            | (Raise e, g) => (Raise e, g)
            end
        end
  end.

End chapter_translate.
Import chapter_translate.

(* ================================================================= *)
(** ** novel_translate.analyze_novel_languages *)

Module novel_translate.

(** The [try] body of the sampling loop: the language detected for the
    first 1000 characters of the file.  Slicing the [None] of a
    [read_text] that found nothing raises [TypeError]. *)
Definition sample_language (W : World) (file_path : str) : result str :=
  content <- read_text W file_path utf_8 ;;
  match content with
  | None => Raise TypeError
  | Some text => detect_language W (firstn 1000 text)
  end.

(** One turn of [for i in range(sample_size)] on [language_counts]. *)
Definition count_sample (W : World) (language_counts : PyDict.dict Z)
    (chapter : str * str) : PyDict.dict Z :=
  let '(filename, file_path) := chapter in
  match try_except
          (detected_lang <- sample_language W file_path ;;
           Ok (Some detected_lang))
          [Handler (Ok Exception) (fun _ => Ok None)] with
  | Ok (Some detected_lang) =>
      PyDict.set language_counts detected_lang
        (PyDict.get_default language_counts detected_lang 0 + 1)%Z
  | _ => language_counts
  end.

Definition analyze_novel_languages (W : World)
    (chapter_files : list (str * str)) : str :=
  let language_counts :=
    fold_left (count_sample W) (firstn 3 chapter_files) [] in
  match max_key language_counts with
  | Some most_common_lang => most_common_lang
  | None => lit "en"
  end.

End novel_translate.
Import novel_translate.

(* ================================================================= *)
(** ** Concrete worlds for the examples *)

Module samples.

(** [upper] and [lower] on ASCII text, where Python's agree with the
    ASCII ones. *)
Definition ascii_upper (s : str) : str :=
  map (fun c => if ((97 <=? c) && (c <=? 122))%N then (c - 32)%N else c) s.

Definition ascii_lower (s : str) : str :=
  map (fun c => if ((65 <=? c) && (c <=? 90))%N then (c + 32)%N else c) s.

(** Nothing installed, no file. *)
Definition bare_world : World :=
  {| str_lower := ascii_lower;
     str_upper := ascii_upper;
     langdetect := None;
     path_exists := fun _ => false;
     open_read := fun _ _ => Raise FileNotFoundError;
     onnxruntime := None;
     apply_emotion := fun s => Ok s |}.

Definition chapter_path : str := lit "chapter1.txt".
Definition chapter_text : str := lit "Hello there. General remarks follow.".

(** [langdetect] installed and answering ["en"], one chapter file. *)
Definition english_world : World :=
  {| str_lower := ascii_lower;
     str_upper := ascii_upper;
     langdetect := Some (fun _ => Ok (lit "en"));
     path_exists := fun p => str_eqb p chapter_path;
     open_read := fun p _ =>
       if str_eqb p chapter_path then Ok chapter_text
       else Raise FileNotFoundError;
     onnxruntime := None;
     apply_emotion := fun s => Ok s |}.

(** A session whose [run] always fails. *)
Definition failing_session : session :=
  Session (fun _ => Raise RuntimeError).

(** A store with one writable path and no file yet. *)
Definition snapshot_path : str := lit "glossary.json".

Definition empty_store : store :=
  Store [] (fun p => str_eqb p snapshot_path).

(** Glossaries built through [add_term]. *)
Definition hero : str := lit "Aria".

Definition local_glossary : Glossary :=
  add_term empty hero (lit "Aria-local") None.

Definition remote_glossary : Glossary :=
  add_term empty hero (lit "Aria-remote") None.

Definition two_contexts : Glossary :=
  add_term (add_term empty hero (lit "Aria-local") (Some (lit "first")))
           hero (lit "Aria-local") (Some (lit "second")).

End samples.
Import samples.

(* ================================================================= *)
(** * Theorems *)

(** ** Strings *)

Lemma char_eqb_eq (a b : char) : char_eqb a b = true <-> a = b.
Proof. unfold char_eqb. apply N.eqb_eq. Qed.

Lemma str_eqb_eq (a b : str) : str_eqb a b = true <-> a = b.
Proof.
  revert b.
  induction a as [|x a IH]; intros [|y b]; simpl; split; intros H;
    try reflexivity; try discriminate.
  - apply andb_true_iff in H. destruct H as [Hx Hab].
    apply char_eqb_eq in Hx. apply IH in Hab. now subst.
  - injection H as Hx Hab. subst.
    apply andb_true_iff. split.
    + now apply char_eqb_eq.
    + now apply IH.
Qed.

Lemma str_eqb_refl (a : str) : str_eqb a a = true.
Proof. now apply str_eqb_eq. Qed.

Lemma str_eqb_neq (a b : str) : a <> b -> str_eqb a b = false.
Proof.
  intros Hne. destruct (str_eqb a b) eqn:E; [|reflexivity].
  apply str_eqb_eq in E. contradiction.
Qed.

Lemma truthy_true (s : str) : truthy s = true <-> s <> [].
Proof. destruct s; simpl; split; congruence. Qed.

Lemma lstrip_length (s : str) : (List.length (lstrip s) <= List.length s)%nat.
Proof.
  induction s as [|c s IH]; simpl; [lia|].
  destruct (isspace c); simpl; lia.
Qed.

Lemma strip_len (s : str) : (len (strip s) <= len s)%Z.
Proof.
  unfold len, strip, rstrip.
  pose proof (lstrip_length (rev (lstrip (rev s)))) as H1.
  pose proof (lstrip_length (rev s)) as H2.
  rewrite length_rev in H1. rewrite length_rev in H2. lia.
Qed.

(** Stripping on the left stops at the latest at a final character
    that is not white space. *)
Lemma lstrip_keeps_last (x : str) (c : char) :
  isspace c = false -> exists y, lstrip (x ++ [c]) = y ++ [c].
Proof.
  intros Hc. induction x as [|a x IH]; simpl.
  - rewrite Hc. now exists [].
  - destruct (isspace a).
    + exact IH.
    + now exists (a :: x).
Qed.

Lemma rstrip_dot_space (x : str) : rstrip (x ++ dot_space) = x ++ [period].
Proof.
  unfold rstrip, dot_space.
  rewrite rev_app_distr. cbn.
  now rewrite rev_involutive.
Qed.

(** A buffer that ends with [". "] is trimmed to a text that ends
    with ["."]. *)
Lemma strip_dot_space (x : str) :
  exists y, strip (x ++ dot_space) = y ++ [period].
Proof.
  unfold strip. rewrite rstrip_dot_space.
  now apply lstrip_keeps_last.
Qed.

Lemma split2_from_nonempty (a b : char) (s acc : str) :
  split2_from a b acc s <> [].
Proof.
  revert acc. induction s as [|c s IH]; intros acc; simpl; [discriminate|].
  destruct s as [|d s'].
  - discriminate.
  - destruct (char_eqb c a && char_eqb d b); [discriminate|apply IH].
Qed.

Lemma sentences_of_nonempty (text : str) : sentences_of text <> [].
Proof. apply split2_from_nonempty. Qed.

(* ================================================================= *)
(** ** split_text_into_chunks: the shape of the units *)

Section ChunkerShape.
Variable M : Z.

Let closed (u : str) : Prop := exists y, u = y ++ [period].
Let buffered (cur : str) : Prop := exists x, cur = x ++ dot_space.

Lemma buffered_truthy (cur : str) : buffered cur -> truthy cur = true.
Proof.
  intros [x ->]. apply truthy_true. unfold dot_space.
  destruct x; discriminate.
Qed.

Lemma chunk_step_shape (st : list str * str) (s : str) :
  Forall closed (fst st) ->
  snd st = [] \/ buffered (snd st) ->
  Forall closed (fst (chunk_step M st s))
  /\ buffered (snd (chunk_step M st s)).
Proof.
  destruct st as [chunks cur]. cbn [fst snd chunk_step]. intros Hc Hb.
  destruct (len cur + len s + 2 <=? M)%Z; cbn [fst snd].
  - split; [assumption|]. exists (cur ++ s). now rewrite app_assoc.
  - split; [|now exists s].
    destruct Hb as [-> | Hb]; [assumption|].
    rewrite (buffered_truthy Hb).
    apply Forall_app. split; [assumption|].
    constructor; [|constructor].
    destruct Hb as [x ->]. apply strip_dot_space.
Qed.

Lemma chunk_loop_shape (l : list str) : forall st,
  Forall closed (fst st) -> buffered (snd st) ->
  Forall closed (fst (fold_left (chunk_step M) l st))
  /\ buffered (snd (fold_left (chunk_step M) l st)).
Proof.
  induction l as [|s l IH]; intros st Hc Hb; cbn [fold_left].
  - now split.
  - destruct (@chunk_step_shape st s Hc (or_intror Hb)) as [Hc' Hb'].
    now apply IH.
Qed.

Lemma chunks_shape (text : str) :
  exists chunks cur,
    split_text_into_chunks text M = chunks ++ [strip cur]
    /\ Forall closed chunks /\ buffered cur.
Proof.
  unfold split_text_into_chunks.
  pose proof (sentences_of_nonempty text) as Hne.
  destruct (sentences_of text) as [|s l]; [contradiction|].
  cbn [fold_left].
  destruct (@chunk_step_shape ([], []) s (Forall_nil _) (or_introl eq_refl))
    as [Hc Hb].
  destruct (chunk_loop_shape l _ Hc Hb) as [Hc' Hb'].
  destruct (fold_left (chunk_step M) l (chunk_step M ([], []) s))
    as [chunks cur].
  cbn [fst snd] in Hc', Hb'.
  rewrite (buffered_truthy Hb').
  now exists chunks, cur.
Qed.

End ChunkerShape.

(** C10.  For every text, the empty one included, and every maximum
    chunk size, [split_text_into_chunks] returns at least one unit and
    every unit is a non-empty string whose last character is ['.']; the
    empty text gives the single unit ["."]. *)
Theorem split_text_into_chunks_units_end_with_period (text : str) (M : Z) :
  split_text_into_chunks text M <> []
  /\ Forall (fun u => u <> [] /\ exists y, u = y ++ [period])
            (split_text_into_chunks text M)
  /\ split_text_into_chunks [] M = [lit "."].
Proof.
  split; [|split].
  - destruct (chunks_shape M text) as (chunks & cur & -> & _).
    destruct chunks; discriminate.
  - apply Forall_forall. intros u Hu.
    destruct (chunks_shape M text) as (chunks & cur & E & Hc & Hb).
    rewrite E in Hu. apply in_app_or in Hu.
    assert (exists y, u = y ++ [period]) as [y ->].
    { destruct Hu as [Hu | [<- | []]].
      - rewrite Forall_forall in Hc. now apply Hc.
      - destruct Hb as [x ->]. apply strip_dot_space. }
    split; [destruct y; discriminate | now exists y].
  - unfold split_text_into_chunks. cbn.
    destruct (2 <=? M)%Z; reflexivity.
Qed.

(** The period is added to a text that had none. *)
Example split_adds_period :
  split_text_into_chunks (lit "no period here") 512
  = [lit "no period here."].
Proof. reflexivity. Qed.

Example split_hello_world :
  split_text_into_chunks (lit "Hello. World.") 512 = [lit "Hello. World.."].
Proof. reflexivity. Qed.

Example split_small :
  split_text_into_chunks (lit "ab. cd. ef") 8 = [lit "ab. cd."; lit "ef."].
Proof. reflexivity. Qed.

(* ================================================================= *)
(** ** split_text_into_chunks: the length of the units *)

Section ChunkerBound.
Variable M : Z.
Variable sentences : list str.

(** A unit is within the bound, or it is one sentence that does not
    fit together with its suffix. *)
Let unit_ok (u : str) : Prop :=
  (len u <= M)%Z
  \/ exists s, In s sentences /\ u = strip (s ++ dot_space)
               /\ (M < len s + 2)%Z.

Let buffer_ok (cur : str) : Prop :=
  (len cur <= M)%Z
  \/ exists s, In s sentences /\ cur = s ++ dot_space
               /\ (M < len s + 2)%Z.

Lemma buffer_flush (cur : str) : buffer_ok cur -> unit_ok (strip cur).
Proof.
  intros [Hle | (s & Hin & -> & Hbig)].
  - left. pose proof (strip_len cur). lia.
  - right. now exists s.
Qed.

Lemma len_app (a b : str) : len (a ++ b) = (len a + len b)%Z.
Proof. unfold len. rewrite length_app. lia. Qed.

Lemma chunk_step_bound (st : list str * str) (s : str) :
  In s sentences ->
  Forall unit_ok (fst st) ->
  snd st = [] \/ buffer_ok (snd st) ->
  Forall unit_ok (fst (chunk_step M st s))
  /\ buffer_ok (snd (chunk_step M st s)).
Proof.
  destruct st as [chunks cur]. cbn [fst snd chunk_step]. intros Hin Hc Hb.
  destruct (len cur + len s + 2 <=? M)%Z eqn:Hfit; cbn [fst snd].
  - apply Z.leb_le in Hfit. split; [assumption|]. left.
    rewrite !len_app. unfold dot_space, len at 3. cbn. lia.
  - apply Z.leb_gt in Hfit. split.
    + destruct (truthy cur) eqn:T; [|assumption].
      apply Forall_app. split; [assumption|].
      constructor; [|constructor].
      apply buffer_flush.
      destruct Hb as [-> | Hb]; [discriminate|assumption].
    + destruct (Z_le_gt_dec (len (s ++ dot_space)) M) as [Hle | Hgt].
      * now left.
      * right. exists s. repeat split; [assumption|].
        rewrite len_app in Hgt. unfold dot_space, len at 2 in Hgt.
        cbn in Hgt. lia.
Qed.

Lemma chunk_loop_bound (l : list str) : forall st,
  (forall s, In s l -> In s sentences) ->
  Forall unit_ok (fst st) ->
  snd st = [] \/ buffer_ok (snd st) ->
  Forall unit_ok (fst (fold_left (chunk_step M) l st))
  /\ (snd (fold_left (chunk_step M) l st) = []
      \/ buffer_ok (snd (fold_left (chunk_step M) l st))).
Proof.
  induction l as [|s l IH]; intros st Hl Hc Hb; cbn [fold_left].
  - now split.
  - destruct (@chunk_step_bound st s (Hl s (or_introl eq_refl)) Hc Hb)
      as [Hc' Hb'].
    apply IH; [|assumption|now right].
    intros s' Hs'. apply Hl. now right.
Qed.

End ChunkerBound.

(** C1, as the code has it.  Every unit of
    [split_text_into_chunks text M] has at most [M] characters, except
    a unit made of one sentence alone whose length together with the
    two characters of the suffix [". "] is more than [M]. *)
Theorem split_text_into_chunks_bound (text : str) (M : Z) :
  Forall (fun u =>
            (len u <= M)%Z
            \/ exists s, In s (sentences_of text)
                         /\ u = strip (s ++ dot_space)
                         /\ (M < len s + 2)%Z)
         (split_text_into_chunks text M).
Proof.
  apply Forall_forall. intros u Hu. unfold split_text_into_chunks in Hu.
  destruct (@chunk_loop_bound M (sentences_of text) (sentences_of text)
              ([], []) (fun s H => H) (Forall_nil _) (or_introl eq_refl))
    as [Hc Hb].
  destruct (fold_left (chunk_step M) (sentences_of text) ([], []))
    as [chunks cur].
  cbn [fst snd] in Hc, Hb.
  rewrite Forall_forall in Hc.
  destruct (truthy cur) eqn:T.
  - apply in_app_or in Hu. destruct Hu as [Hu | [<- | []]].
    + now apply Hc.
    + destruct Hb as [-> | Hb]; [discriminate|].
      now apply (@buffer_flush M (sentences_of text)).
  - now apply Hc.
Qed.

(** C1 as it is worded fails: with [M = 3] the text ["abc"] is one
    sentence of three characters, which does not exceed [M], and the
    only unit is ["abc."], of four. *)
Lemma split_text_into_chunks_bound_counterexample :
  ~ Forall (fun u =>
              (len u <= 3)%Z
              \/ exists s, In s (sentences_of (lit "abc"))
                           /\ u = strip (s ++ dot_space)
                           /\ (3 < len s)%Z)
           (split_text_into_chunks (lit "abc") 3).
Proof.
  intros H. rewrite Forall_forall in H.
  destruct (H (lit "abc.") (or_introl eq_refl))
    as [Hle | (s & Hin & _ & Hbig)].
  - vm_compute in Hle. now apply Hle.
  - destruct Hin as [<- | []]. vm_compute in Hbig. discriminate.
Qed.

(* ================================================================= *)
(** ** The translation backend *)

(** Every exception class derives from [Exception], so an
    [except Exception] clause takes whatever is raised. *)
Lemma isinstance_Exception (e : exn) : isinstance e Exception = true.
Proof. destruct e; reflexivity. Qed.

Lemma try_except_Exception {A} (body : result A) (h : exn -> result A) :
  try_except body [Handler (Ok Exception) h]
  = match body with Ok a => Ok a | Raise e => h e end.
Proof.
  destruct body as [a|e]; cbn; [reflexivity|].
  now rewrite isinstance_Exception.
Qed.

(** Model resolution answers [None] or a session and never raises. *)
Lemma load_translation_model_never_raises (W : World) (s t : str) :
  raises (load_translation_model W s t) = false.
Proof.
  unfold load_translation_model.
  destruct (onnxruntime W) as [mk|]; [|reflexivity].
  destruct (path_exists W _); [|reflexivity].
  destruct (mk _) as [sess|e]; cbn; [reflexivity|].
  destruct (isinstance e ImportError); [reflexivity|].
  now rewrite isinstance_Exception.
Qed.

Lemma load_translation_model_without_runtime (W : World) (s t : str) :
  onnxruntime W = None -> load_translation_model W s t = Ok None.
Proof. unfold load_translation_model. now intros ->. Qed.

(** C3.  Resolving the model never raises, and
    [translate_text_chunk] returns for every unit, model and pair of
    languages; when there is no model, or when running the model
    raises, what it returns is the target language in upper case
    between square brackets, a space, and the unit itself. *)
Theorem translate_text_chunk_never_raises
    (W : World) (text_chunk : str) (model_session : option session)
    (source_lang target_lang : str) :
  raises (load_translation_model W source_lang target_lang) = false
  /\ raises (translate_text_chunk W text_chunk model_session
               source_lang target_lang) = false
  /\ (match model_session with
      | None => True
      | Some model =>
          raises (run model (RunInputs [text_chunk] [source_lang]
                                       [target_lang])) = true
      end ->
      translate_text_chunk W text_chunk model_session
        source_lang target_lang
      = Ok (lit "[" ++ str_upper W target_lang ++ lit "] " ++ text_chunk)).
Proof.
  split; [apply load_translation_model_never_raises|].
  unfold translate_text_chunk.
  destruct model_session as [model|].
  - rewrite try_except_Exception.
    destruct (run model _) as [outputs|e]; cbn.
    + split; [reflexivity|discriminate].
    + split; reflexivity.
  - split; reflexivity.
Qed.

Lemma translate_text_chunk_never_raises_witness :
  raises (run failing_session
            (RunInputs [lit "Hello."] [lit "en"] [lit "es"])) = true
  /\ translate_text_chunk bare_world (lit "Hello.") (Some failing_session)
       (lit "en") (lit "es")
     = Ok (lit "[ES] Hello.").
Proof.
  split; [reflexivity|].
  apply (proj2 (proj2 (translate_text_chunk_never_raises bare_world
                         (lit "Hello.") (Some failing_session)
                         (lit "en") (lit "es")))).
  reflexivity.
Defined.

Example translate_text_chunk_without_model :
  translate_text_chunk bare_world (lit "Hello.") None (lit "en") (lit "es")
  = Ok (lit "[ES] Hello.").
Proof. reflexivity. Qed.

(* ================================================================= *)
(** ** Language detection *)

Lemma detect_language_blank (W : World) (text : str) :
  strip text = [] -> detect_language W text = Ok (lit "en").
Proof.
  intros H. unfold detect_language. rewrite H. cbn [truthy negb].
  now rewrite orb_true_r.
Qed.

(** With [langdetect] installed, whatever [detect] does, a language
    code comes back. *)
Lemma detect_language_with_langdetect (W : World) (text : str)
    (detect : str -> result str) :
  langdetect W = Some detect ->
  raises (detect_language W text) = false.
Proof.
  intros Hld. unfold detect_language, detect_body. rewrite Hld.
  destruct (negb (truthy text) || negb (truthy (strip text)));
    [reflexivity|].
  destruct (detect _) as [code|e]; cbn; [reflexivity|].
  destruct (isinstance e LangDetectException); [reflexivity|].
  destruct (isinstance e ImportError); [reflexivity|].
  now rewrite isinstance_Exception.
Qed.

(** Without [langdetect] the import fails before the name
    [LangDetectException] is bound; the first [except] clause reads
    that name, and the [except ImportError] clause is never tried. *)
Lemma detect_language_without_langdetect (W : World) (text : str) :
  langdetect W = None ->
  truthy (strip text) = true ->
  detect_language W text = Raise UnboundLocalError.
Proof.
  intros Hld Htext. unfold detect_language, detect_body.
  rewrite Hld, Htext.
  assert (truthy text = true) as ->.
  { destruct text; [discriminate Htext|reflexivity]. }
  reflexivity.
Qed.

(** C4.  In a world where [langdetect] is not installed,
    [detect_language] on the text ["Hello world"] raises
    [UnboundLocalError] instead of returning a language code. *)
Theorem detect_language_raises_without_langdetect :
  langdetect bare_world = None
  /\ detect_language bare_world (lit "Hello world") = Raise UnboundLocalError.
Proof. split; reflexivity. Qed.

(** The heuristic the [except ImportError] clause was meant to reach
    does answer for that text. *)
Example fallback_on_hello_world :
  fallback_language_detection bare_world (lit "Hello world") = lit "es".
Proof. vm_compute. reflexivity. Qed.

(* ================================================================= *)
(** ** translate_chapter on a text already in the target language *)

(** C2.  When the chapter file is read, its text is not blank and the
    language detected for it is the target language,
    [translate_chapter] returns that very text and the chapter
    glossary it was given: no unit was committed to it. *)
Theorem translate_chapter_same_language
    (W : World) (file_path target_lang original_text : str)
    (chapter_glossary : Glossary) :
  read_text W file_path utf_8 = Ok (Some original_text) ->
  truthy (strip original_text) = true ->
  detect_language W original_text = Ok target_lang ->
  translate_chapter W file_path target_lang chapter_glossary
  = (Ok original_text, chapter_glossary).
Proof.
  intros Hread Htext Hdetect.
  unfold translate_chapter, open_chapter.
  rewrite Hread. cbn [try_except]. rewrite Htext. cbn [negb].
  rewrite Hdetect. now rewrite str_eqb_refl.
Qed.

Lemma translate_chapter_same_language_witness :
  read_text english_world chapter_path utf_8 = Ok (Some chapter_text)
  /\ truthy (strip chapter_text) = true
  /\ detect_language english_world chapter_text = Ok (lit "en")
  /\ translate_chapter english_world chapter_path (lit "en") local_glossary
     = (Ok chapter_text, local_glossary).
Proof.
  split; [reflexivity|]. split; [reflexivity|]. split; [reflexivity|].
  apply (@translate_chapter_same_language english_world chapter_path
           (lit "en") chapter_text local_glossary); reflexivity.
Defined.

(** The same chapter asked for in Spanish goes through the chunker and
    the placeholder backend, and its unit is committed. *)
Example translate_chapter_other_language :
  translate_chapter english_world chapter_path (lit "es") empty
  = (Ok (lit "[ES] Hello there. General remarks follow.."),
     add_term empty (lit "Hello there. General remarks follow..")
       (lit "[ES] Hello there. General remarks follow..") None).
Proof. vm_compute. reflexivity. Qed.

(* ================================================================= *)
(** ** Dictionaries *)

Section DictFacts.
Variable V : Type.
Implicit Types (d : PyDict.dict V) (k : str) (v : V).

Lemma get_set_same d k v : PyDict.get (PyDict.set d k v) k = Some v.
Proof.
  induction d as [|[k0 v0] d IH]; cbn.
  - now rewrite str_eqb_refl.
  - destruct (str_eqb k0 k) eqn:E; cbn; rewrite E; [reflexivity|exact IH].
Qed.

Lemma get_set_other d k k' v :
  k <> k' -> PyDict.get (PyDict.set d k v) k' = PyDict.get d k'.
Proof.
  intros Hne. induction d as [|[k0 v0] d IH]; cbn.
  - now rewrite (str_eqb_neq Hne).
  - destruct (str_eqb k0 k) eqn:E; cbn.
    + apply str_eqb_eq in E. subst k0.
      now rewrite (str_eqb_neq Hne).
    + destruct (str_eqb k0 k'); [reflexivity|exact IH].
Qed.

Lemma get_default_set_same d k v default :
  PyDict.get_default (PyDict.set d k v) k default = v.
Proof. unfold PyDict.get_default. now rewrite get_set_same. Qed.

Lemma contains_set_same d k v :
  PyDict.contains (PyDict.set d k v) k = true.
Proof. unfold PyDict.contains. now rewrite get_set_same. Qed.

Lemma get_absent d k : ~ In k (PyDict.keys d) -> PyDict.get d k = None.
Proof.
  induction d as [|[k0 v0] d IH]; cbn; intros Hnot; [reflexivity|].
  rewrite str_eqb_neq by tauto. apply IH. tauto.
Qed.

(** The item [get] finds is the first one with that key. *)
Lemma get_split d k v :
  PyDict.get d k = Some v ->
  exists d1 d2, d = d1 ++ (k, v) :: d2 /\ ~ In k (PyDict.keys d1).
Proof.
  induction d as [|[k0 v0] d IH]; cbn; intros H; [discriminate|].
  destruct (str_eqb k0 k) eqn:E.
  - apply str_eqb_eq in E. injection H as ->. subst k0.
    exists [], d. split; [reflexivity|]. now intros [].
  - destruct (IH H) as (d1 & d2 & -> & Hnot).
    exists ((k0, v0) :: d1), d2. split; [reflexivity|].
    cbn. intros [Heq | Hin]; [|contradiction].
    subst k0. now rewrite str_eqb_refl in E.
Qed.

Lemma wf_split d1 d2 k v :
  PyDict.wf (d1 ++ (k, v) :: d2) -> ~ In k (PyDict.keys d2).
Proof.
  unfold PyDict.wf, PyDict.keys. rewrite map_app. cbn. intros Hnd Hin.
  apply NoDup_remove_2 in Hnd. apply Hnd.
  apply in_or_app. now right.
Qed.

End DictFacts.

(* ================================================================= *)
(** ** The glossary: add_term and the look-ups *)

Lemma nonblank_truthy (s : str) : strip s <> [] -> truthy s = true.
Proof. destruct s; [intros H; now contradiction H | reflexivity]. Qed.

(** The guard of [add_term], [get_translation] and [remove_term] on a
    term that is not blank. *)
Lemma guard_nonblank (s : str) :
  strip s <> [] -> negb (truthy s) || negb (truthy (strip s)) = false.
Proof.
  intros H. rewrite (nonblank_truthy _ H).
  apply truthy_true in H. now rewrite H.
Qed.

(** C7.  After a term that is not blank is added with a translation
    that is empty or white space only, [get_translation] answers
    not-found for it while [has_term] answers true. *)
Theorem untranslated_term_is_known
    (g : Glossary) (original translated : str) (context : option str) :
  strip original <> [] ->
  strip translated = [] ->
  get_translation (add_term g original translated context) original = None
  /\ has_term (add_term g original translated context) original = true.
Proof.
  intros Horig Htrans.
  unfold get_translation, has_term, add_term.
  rewrite (guard_nonblank _ Horig), (nonblank_truthy _ Horig).
  cbn [_terms].
  split.
  - rewrite get_set_same.
    destruct (truthy translated); [rewrite Htrans|]; reflexivity.
  - apply contains_set_same.
Qed.

Lemma untranslated_term_is_known_witness :
  strip hero <> []
  /\ strip (lit "   ") = []
  /\ get_translation (add_term empty hero (lit "   ") None) hero = None
  /\ has_term (add_term empty hero (lit "   ") None) hero = true.
Proof.
  split; [discriminate|]. split; [reflexivity|].
  apply (@untranslated_term_is_known empty hero (lit "   ") None).
  - discriminate.
  - reflexivity.
Defined.

Lemma last5_short (l : list str) :
  (len l <= 5)%Z -> last5 l = l.
Proof.
  unfold last5, len. intros H.
  replace (List.length l - 5)%nat with 0%nat by lia. reflexivity.
Qed.

(** The history of [original] after the [if context:] block. *)
Lemma add_context_history (ctx : PyDict.dict (list str))
    (original context : str) :
  PyDict.get_default (add_context ctx original context) original []
  = if str_in context (PyDict.get_default ctx original [])
    then PyDict.get_default ctx original []
    else last5 (PyDict.get_default ctx original [] ++ [context]).
Proof.
  unfold add_context, PyDict.contains.
  destruct (PyDict.get ctx original) as [old|] eqn:E; cbn [negb].
  - assert (Hold : PyDict.get_default ctx original [] = old)
      by (unfold PyDict.get_default; now rewrite E).
    rewrite Hold.
    destruct (str_in context old); cbn [negb]; [exact Hold|].
    destruct (5 <? len (old ++ [context]))%Z eqn:L.
    + apply get_default_set_same.
    + rewrite get_default_set_same.
      symmetry. apply last5_short. now apply Z.ltb_ge.
  - assert (Hold : PyDict.get_default ctx original [] = [])
      by (unfold PyDict.get_default; now rewrite E).
    rewrite Hold, get_default_set_same. cbn.
    apply get_default_set_same.
Qed.

(** C6, as the code has it.  After [add_term] with a non-empty context
    on a term that is not blank, the term's history is unchanged when
    the context already occurs anywhere in it; otherwise the context
    is appended and the history is cut to its last five entries. *)
Theorem add_term_context_history
    (g : Glossary) (original translated context : str) :
  strip original <> [] ->
  context <> [] ->
  get_context (add_term g original translated (Some context)) original
  = if str_in context (get_context g original)
    then get_context g original
    else last5 (get_context g original ++ [context]).
Proof.
  intros Horig Hctx.
  unfold get_context, add_term.
  rewrite (guard_nonblank _ Horig), (nonblank_truthy _ Horig).
  cbn [_context].
  apply truthy_true in Hctx. rewrite Hctx.
  apply add_context_history.
Qed.

Lemma add_term_context_history_witness :
  strip hero <> []
  /\ lit "third" <> []
  /\ get_context (add_term two_contexts hero (lit "Aria-local")
                    (Some (lit "third"))) hero
     = [lit "first"; lit "second"; lit "third"].
Proof.
  split; [discriminate|]. split; [discriminate|].
  apply (@add_term_context_history two_contexts hero (lit "Aria-local")
           (lit "third")); discriminate.
Defined.

(** C6 as it is worded fails: the history is ["first"; "second"], the
    context ["first"] is not its last entry, and it is not appended. *)
Lemma add_term_context_history_counterexample :
  ~ (get_context (add_term two_contexts hero (lit "Aria-local")
                    (Some (lit "first"))) hero
     = if str_eqb (last (get_context two_contexts hero) []) (lit "first")
       then last5 (get_context two_contexts hero)
       else last5 (get_context two_contexts hero ++ [lit "first"])).
Proof. vm_compute. discriminate. Qed.

Example context_history_is_bounded :
  get_context
    (fold_left (fun g c => add_term g hero (lit "Aria-local") (Some c))
       [lit "c1"; lit "c2"; lit "c3"; lit "c4"; lit "c5"; lit "c6"] empty)
    hero
  = [lit "c2"; lit "c3"; lit "c4"; lit "c5"; lit "c6"].
Proof. reflexivity. Qed.

(* ================================================================= *)
(** ** The glossary: merge_glossary *)

(** The key [get_usage_count] and [get_context] look up for a term
    that is already trimmed. *)
Lemma trimmed_key (k : str) :
  strip k = k -> (if truthy k then strip k else []) = k.
Proof. intros H. destruct k; [reflexivity|exact H]. Qed.

Lemma get_usage_count_trimmed (g : Glossary) (k : str) :
  strip k = k ->
  get_usage_count g k = PyDict.get_default (_usage_count g) k 0%Z.
Proof. intros H. unfold get_usage_count. now rewrite trimmed_key. Qed.

(** [add_term] writes under the trimmed term only. *)
Lemma add_term_frame (g : Glossary) (original translated k : str) :
  strip original <> k ->
  PyDict.get (_terms (add_term g original translated None)) k
  = PyDict.get (_terms g) k
  /\ PyDict.get (_usage_count (add_term g original translated None)) k
     = PyDict.get (_usage_count g) k.
Proof.
  intros Hne. unfold add_term.
  destruct (negb (truthy original) || negb (truthy (strip original)));
    [now split|].
  cbn [_terms _usage_count]. split; now apply get_set_other.
Qed.

Section MergeLoop.
Variable other : Glossary.
Variable prefer_existing : bool.
Variable k : str.

(** A turn of the loop on another, trimmed, term leaves the entry of
    [k] as it is. *)
Lemma merge_step_frame (self : Glossary) (k' v' : str) :
  strip k' = k' -> k' <> k ->
  PyDict.get (_terms (merge_step other prefer_existing self (k', v'))) k
  = PyDict.get (_terms self) k
  /\ PyDict.get
       (_usage_count (merge_step other prefer_existing self (k', v'))) k
     = PyDict.get (_usage_count self) k.
Proof.
  intros Htrim Hne.
  assert (Hadd := @add_term_frame self k' v' k).
  rewrite Htrim in Hadd. destruct (Hadd Hne) as [Ht Hu].
  unfold merge_step.
  destruct (PyDict.contains (_terms self) k').
  - destruct (negb prefer_existing
              || negb (truthy (PyDict.get_default (_terms self) k' [])));
      cbn [with_usage _terms _usage_count];
      rewrite get_set_other by assumption; now split.
  - cbn [with_usage _terms _usage_count].
    rewrite get_set_other by assumption. now split.
Qed.

Lemma merge_loop_frame (l : list (str * str)) : forall self,
  (forall k', In k' (map fst l) -> strip k' = k') ->
  ~ In k (map fst l) ->
  PyDict.get
    (_terms (fold_left (merge_step other prefer_existing) l self)) k
  = PyDict.get (_terms self) k
  /\ PyDict.get
       (_usage_count (fold_left (merge_step other prefer_existing) l self))
       k
     = PyDict.get (_usage_count self) k.
Proof.
  induction l as [|[k' v'] l IH]; intros self Htrim Hnot; cbn [fold_left].
  - now split.
  - cbn [map fst In] in Htrim, Hnot.
    destruct (@merge_step_frame self k' v') as [Ht Hu].
    + apply Htrim. now left.
    + intros ->. apply Hnot. now left.
    + destruct (IH (merge_step other prefer_existing self (k', v')))
        as [Ht' Hu'].
      * intros k'' Hin. apply Htrim. now right.
      * intros Hin. apply Hnot. now right.
      * split; congruence.
Qed.

(** The turn of the loop on [k] itself, a trimmed term that has the
    translation [v1] here.  The count becomes the sum of the two
    counts; when the translation is replaced through [add_term], the
    increment of [add_term] comes on top. *)
Lemma merge_step_same (self : Glossary) (v1 v2 : str) :
  strip k = k ->
  PyDict.get (_terms self) k = Some v1 ->
  let replaced := (negb prefer_existing || negb (truthy v1)) && truthy k in
  PyDict.get (_terms (merge_step other prefer_existing self (k, v2))) k
  = Some (if replaced then (if truthy v2 then strip v2 else []) else v1)
  /\ PyDict.get_default
       (_usage_count (merge_step other prefer_existing self (k, v2))) k 0%Z
     = (PyDict.get_default (_usage_count self) k 0
        + (if replaced then 1 else 0)
        + get_usage_count other k)%Z.
Proof.
  intros Htrim Hget. cbn zeta.
  assert (Hdef : PyDict.get_default (_terms self) k [] = v1)
    by (unfold PyDict.get_default; now rewrite Hget).
  unfold merge_step, PyDict.contains. rewrite Hget, Hdef.
  destruct (negb prefer_existing || negb (truthy v1)); cbn [andb].
  - unfold add_term. rewrite Htrim.
    destruct (truthy k) eqn:T; cbn [negb orb with_usage _terms _usage_count].
    + rewrite !get_default_set_same, get_set_same. split; [reflexivity|lia].
    + rewrite get_default_set_same. split; [assumption|lia].
  - cbn [with_usage _terms _usage_count].
    rewrite get_default_set_same. split; [assumption|lia].
Qed.

End MergeLoop.

(** The count of a term both glossaries have, after the merge. *)
Lemma merge_glossary_entry (self other : Glossary)
    (prefer_existing : bool) (k v1 v2 : str) :
  PyDict.wf (_terms other) ->
  (forall k', In k' (PyDict.keys (_terms other)) -> strip k' = k') ->
  PyDict.get (_terms self) k = Some v1 ->
  PyDict.get (_terms other) k = Some v2 ->
  let replaced := (negb prefer_existing || negb (truthy v1)) && truthy k in
  PyDict.get (_terms (merge_glossary self other prefer_existing)) k
  = Some (if replaced then (if truthy v2 then strip v2 else []) else v1)
  /\ get_usage_count (merge_glossary self other prefer_existing) k
     = (get_usage_count self k + (if replaced then 1 else 0)
        + get_usage_count other k)%Z.
Proof.
  intros Hwf Htrim Hself Hother. cbn zeta.
  unfold merge_glossary, get_all_terms, PyDict.items.
  destruct (get_split _ _ Hother) as (l1 & l2 & E & Hnot1).
  assert (Hnot2 : ~ In k (map fst l2)).
  { rewrite E in Hwf. exact (wf_split _ _ _ _ Hwf). }
  assert (Hk : strip k = k).
  { apply Htrim. rewrite E. unfold PyDict.keys. rewrite map_app.
    apply in_or_app. right. now left. }
  assert (Htrim1 : forall k', In k' (map fst l1) -> strip k' = k').
  { intros k' Hin. apply Htrim. rewrite E. unfold PyDict.keys.
    rewrite map_app. apply in_or_app. now left. }
  assert (Htrim2 : forall k', In k' (map fst l2) -> strip k' = k').
  { intros k' Hin. apply Htrim. rewrite E. unfold PyDict.keys.
    rewrite map_app. apply in_or_app. right. now right. }
  rewrite !get_usage_count_trimmed by assumption.
  rewrite <- get_usage_count_trimmed with (g := other) by assumption.
  rewrite E, fold_left_app. cbn [fold_left].
  destruct (@merge_loop_frame other prefer_existing k l1 self Htrim1 Hnot1)
    as [Ht1 Hu1].
  set (s1 := fold_left (merge_step other prefer_existing) l1 self) in *.
  rewrite <- Ht1 in Hself.
  destruct (@merge_step_same other prefer_existing k s1 v1 v2 Hk Hself)
    as [Ht Hu].
  set (s2 := merge_step other prefer_existing s1 (k, v2)) in *.
  destruct (@merge_loop_frame other prefer_existing k l2 s2 Htrim2 Hnot2)
    as [Ht2 Hu2].
  split.
  - now rewrite Ht2.
  - assert (D2 : PyDict.get_default
                   (_usage_count
                      (fold_left (merge_step other prefer_existing) l2 s2))
                   k 0%Z
                 = PyDict.get_default (_usage_count s2) k 0%Z)
      by (unfold PyDict.get_default; now rewrite Hu2).
    assert (D1 : PyDict.get_default (_usage_count s1) k 0%Z
                 = PyDict.get_default (_usage_count self) k 0%Z)
      by (unfold PyDict.get_default; now rewrite Hu1).
    now rewrite D2, Hu, D1.
Qed.

(** C8.  When [k] has the non-empty translation [v1] here and some
    translation [v2] in the other glossary, whose terms are trimmed as
    [add_term] leaves them, then after
    [merge_glossary(other, prefer_existing=True)] the translation of
    [k] is still [v1] and its usage count is the sum of the two
    counts. *)
Theorem merge_glossary_prefer_existing_keeps_translation
    (self other : Glossary) (k v1 v2 : str) :
  PyDict.wf (_terms other) ->
  (forall k', In k' (PyDict.keys (_terms other)) -> strip k' = k') ->
  PyDict.get (_terms self) k = Some v1 ->
  v1 <> [] ->
  PyDict.get (_terms other) k = Some v2 ->
  PyDict.get (_terms (merge_glossary self other true)) k = Some v1
  /\ get_usage_count (merge_glossary self other true) k
     = (get_usage_count self k + get_usage_count other k)%Z.
Proof.
  intros Hwf Htrim Hself Hv1 Hother.
  destruct (@merge_glossary_entry self other true k v1 v2
              Hwf Htrim Hself Hother) as [Ht Hu].
  apply truthy_true in Hv1. rewrite Hv1 in Ht, Hu.
  cbn [negb orb andb] in Ht, Hu.
  split; [exact Ht|]. rewrite Hu. lia.
Qed.

Lemma merge_glossary_prefer_existing_keeps_translation_witness :
  PyDict.get (_terms local_glossary) hero = Some (lit "Aria-local")
  /\ PyDict.get (_terms remote_glossary) hero = Some (lit "Aria-remote")
  /\ PyDict.get
       (_terms (merge_glossary local_glossary remote_glossary true)) hero
     = Some (lit "Aria-local")
  /\ get_usage_count (merge_glossary local_glossary remote_glossary true)
       hero
     = (get_usage_count local_glossary hero
        + get_usage_count remote_glossary hero)%Z.
Proof.
  split; [reflexivity|]. split; [reflexivity|].
  apply (@merge_glossary_prefer_existing_keeps_translation
           local_glossary remote_glossary hero
           (lit "Aria-local") (lit "Aria-remote")).
  - constructor; [intros []|constructor].
  - intros k' [<- | []]. reflexivity.
  - reflexivity.
  - discriminate.
  - reflexivity.
Defined.

(** C5.  With [prefer_existing=False] the translation of a term both
    glossaries have is replaced through [add_term], which counts one
    use more: two glossaries that each used the term once leave a
    count of three. *)
Theorem merge_glossary_replacing_counts_one_more :
  get_usage_count local_glossary hero = 1%Z
  /\ get_usage_count remote_glossary hero = 1%Z
  /\ get_usage_count (merge_glossary local_glossary remote_glossary false)
       hero = 3%Z.
Proof. repeat split. Qed.

(** A term the merge brings in takes the other count as it is: there
    the increment of [add_term] is overwritten. *)
Example merge_glossary_new_term :
  get_usage_count (merge_glossary empty remote_glossary true) hero = 1%Z.
Proof. reflexivity. Qed.

(* ================================================================= *)
(** ** The glossary: save_to_file and load_from_file *)

Lemma all_some_inverse {A B} (f : A -> option B) (g : B -> A) (l : list B) :
  (forall b, f (g b) = Some b) -> all_some f (map g l) = Some l.
Proof.
  intros Hfg. induction l as [|b l IH]; cbn; [reflexivity|].
  now rewrite Hfg, IH.
Qed.

Lemma as_dict_of_dict {V} (f : json -> option V) (g : V -> json)
    (d : PyDict.dict V) :
  (forall v, f (g v) = Some v) -> as_dict f (of_dict g d) = Some d.
Proof.
  intros Hfg. unfold as_dict, of_dict.
  induction d as [|[k v] d IH]; cbn; [reflexivity|].
  now rewrite Hfg, IH.
Qed.

Lemma as_str_list_inverse (l : list str) :
  as_str_list (JArr (map JStr l)) = Some l.
Proof. cbn. now apply all_some_inverse. Qed.

(** [load_from_file] asks for the three fields under the names
    [save_to_file] wrote them. *)
Lemma loaded_fields_glossary_data (g : Glossary) :
  loaded_fields (glossary_data g)
  = Ok (of_dict JStr (_terms g), of_dict JInt (_usage_count g),
        of_dict (fun l => JArr (map JStr l)) (_context g)).
Proof. reflexivity. Qed.

(** [save_to_file] succeeds exactly when the path can be opened for
    writing and every string of the glossary can be encoded. *)
Lemma save_to_file_succeeds (g : Glossary) (file_path : str) (st : store) :
  fst (save_to_file g file_path st)
  = can_open_w st file_path && writable (glossary_data g).
Proof.
  unfold save_to_file, dump_to.
  destruct (can_open_w st file_path); cbn [negb andb]; [|reflexivity].
  destruct (writable (glossary_data g)); reflexivity.
Qed.

(** C9.  When [save_to_file] reports success, [load_from_file] on the
    same path reports success as well and leaves a glossary whose
    term, usage-count and context maps are those of the glossary that
    was saved, whatever the loading glossary held before. *)
Theorem save_then_load_round_trip
    (g fresh : Glossary) (file_path : str) (st st' : store) :
  save_to_file g file_path st = (true, st') ->
  load_from_file fresh file_path st' = Some (true, g).
Proof.
  unfold save_to_file, dump_to.
  destruct (can_open_w st file_path); cbn [negb]; [|discriminate].
  destruct (writable (glossary_data g)); [|discriminate].
  cbn. intros H. injection H as <-.
  unfold load_from_file, load_from. cbn [files].
  rewrite contains_set_same, get_set_same. cbn [negb Py.bind].
  rewrite loaded_fields_glossary_data. cbn [Py.bind try_except].
  rewrite (as_dict_of_dict as_str JStr), (as_dict_of_dict as_int JInt),
    (as_dict_of_dict as_str_list (fun l => JArr (map JStr l)));
    try reflexivity; try apply as_str_list_inverse.
  now destruct g.
Qed.

Lemma save_then_load_round_trip_witness :
  save_to_file two_contexts snapshot_path empty_store
  = (true, snd (save_to_file two_contexts snapshot_path empty_store))
  /\ load_from_file empty snapshot_path
       (snd (save_to_file two_contexts snapshot_path empty_store))
     = Some (true, two_contexts).
Proof.
  split; [reflexivity|].
  apply (@save_then_load_round_trip two_contexts empty snapshot_path
           empty_store); reflexivity.
Defined.

(** A path that cannot be opened: [save_to_file] answers [False],
    nothing is written, and loading leaves the glossary as it was. *)
Example save_to_unwritable_path :
  save_to_file two_contexts (lit "/no/such/dir/g.json") empty_store
  = (false, empty_store)
  /\ load_from_file empty (lit "/no/such/dir/g.json") empty_store
     = Some (false, empty).
Proof. split; reflexivity. Qed.

(* ================================================================= *)
(** * Further properties of the code *)

(** ** Trimming *)

Lemma lstrip_head (s : str) :
  lstrip s = [] \/ exists c r, lstrip s = c :: r /\ isspace c = false.
Proof.
  induction s as [|c s IH]; cbn; [now left|].
  destruct (isspace c) eqn:E; [exact IH|].
  right. now exists c, s.
Qed.

Lemma lstrip_idem (s : str) : lstrip (lstrip s) = lstrip s.
Proof.
  destruct (lstrip_head s) as [-> | (c & r & -> & Hc)]; [reflexivity|].
  cbn. now rewrite Hc.
Qed.

Lemma rstrip_tail (s : str) :
  rstrip s = [] \/ exists y c, rstrip s = y ++ [c] /\ isspace c = false.
Proof.
  unfold rstrip.
  destruct (lstrip_head (rev s)) as [-> | (c & r & -> & Hc)]; [now left|].
  right. now exists (rev r), c.
Qed.

Lemma rstrip_fixed (y : str) (c : char) :
  isspace c = false -> rstrip (y ++ [c]) = y ++ [c].
Proof.
  intros Hc. unfold rstrip. rewrite rev_app_distr. cbn. rewrite Hc.
  cbn. now rewrite rev_involutive.
Qed.

(** [strip] leaves nothing for a second [strip] to remove. *)
Lemma strip_idem (s : str) : strip (strip s) = strip s.
Proof.
  unfold strip at 2 3.
  destruct (rstrip_tail s) as [-> | (y & c & -> & Hc)]; [reflexivity|].
  destruct (lstrip_keeps_last y c Hc) as [y' E].
  unfold strip. rewrite E, (rstrip_fixed y' c Hc), <- E.
  apply lstrip_idem.
Qed.

Lemma strip_nil : strip [] = [].
Proof. reflexivity. Qed.

(* ================================================================= *)
(** ** More on dictionaries *)

Section DictInvariants.
Variable V : Type.
Implicit Types (d : PyDict.dict V) (k : str) (v : V).

Lemma get_In d k v : PyDict.get d k = Some v -> In (k, v) d.
Proof.
  induction d as [|[k0 v0] d IH]; cbn; [discriminate|].
  destruct (str_eqb k0 k) eqn:E; intros H.
  - apply str_eqb_eq in E. injection H as ->. subst. now left.
  - right. now apply IH.
Qed.

Lemma In_keys d k v : In (k, v) d -> In k (PyDict.keys d).
Proof. intros H. apply (in_map fst) in H. exact H. Qed.

Lemma In_set d k v k0 v0 :
  In (k, v) (PyDict.set d k0 v0) -> (k = k0 /\ v = v0) \/ In (k, v) d.
Proof.
  induction d as [|[k1 v1] d IH]; cbn.
  - intros [H | []]. injection H as <- <-. now left.
  - destruct (str_eqb k1 k0) eqn:E; cbn.
    + apply str_eqb_eq in E. subst k1.
      intros [H | H]; [injection H as <- <-; now left|right; now right].
    + intros [H | H]; [right; now left|].
      destruct (IH H) as [Hnew | Hold]; [now left|right; now right].
Qed.

Lemma keys_set_absent d k v :
  ~ In k (PyDict.keys d) ->
  PyDict.keys (PyDict.set d k v) = PyDict.keys d ++ [k].
Proof.
  induction d as [|[k1 v1] d IH]; cbn; intros Hnot; [reflexivity|].
  rewrite str_eqb_neq by tauto. cbn. f_equal. apply IH. tauto.
Qed.

Lemma keys_set_present d k v :
  In k (PyDict.keys d) -> PyDict.keys (PyDict.set d k v) = PyDict.keys d.
Proof.
  induction d as [|[k1 v1] d IH]; cbn; intros Hin; [contradiction|].
  destruct (str_eqb k1 k) eqn:E; cbn; [reflexivity|].
  f_equal. apply IH. destruct Hin as [-> | Hin]; [|assumption].
  now rewrite str_eqb_refl in E.
Qed.

Lemma wf_set d k v : PyDict.wf d -> PyDict.wf (PyDict.set d k v).
Proof.
  unfold PyDict.wf. intros Hwf.
  destruct (in_dec (list_eq_dec N.eq_dec) k (PyDict.keys d)) as [Hin | Hnot].
  - now rewrite keys_set_present.
  - rewrite keys_set_absent by assumption.
    apply NoDup_app; [assumption|repeat constructor; intros []|].
    intros x Hx [<- | []]. contradiction.
Qed.

Lemma In_remove d k k' v :
  In (k', v) (PyDict.remove d k) -> In (k', v) d.
Proof.
  induction d as [|[k1 v1] d IH]; cbn; [intros []|].
  destruct (str_eqb k1 k); cbn.
  - intros H. now right.
  - intros [H | H]; [now left|right; now apply IH].
Qed.

Lemma wf_remove d k : PyDict.wf d -> PyDict.wf (PyDict.remove d k).
Proof.
  unfold PyDict.wf.
  induction d as [|[k1 v1] d IH]; cbn; intros Hwf; [constructor|].
  inversion Hwf as [|? ? Hnot Hrest]; subst.
  destruct (str_eqb k1 k); cbn; [assumption|].
  constructor; [|now apply IH].
  intros Hin. apply Hnot.
  apply in_map_iff in Hin. destruct Hin as ([k2 v2] & Hk & Hin).
  cbn in Hk. subst k2. apply In_remove in Hin. exact (In_keys _ _ _ Hin).
Qed.

(** In a dictionary the removed key is gone. *)
Lemma get_remove_same d k :
  PyDict.wf d -> PyDict.get (PyDict.remove d k) k = None.
Proof.
  unfold PyDict.wf.
  induction d as [|[k1 v1] d IH]; cbn; intros Hwf; [reflexivity|].
  inversion Hwf as [|? ? Hnot Hrest]; subst.
  destruct (str_eqb k1 k) eqn:E; cbn.
  - apply str_eqb_eq in E. subst k1. now apply get_absent.
  - rewrite E. now apply IH.
Qed.

Lemma get_remove_other d k k' :
  k <> k' -> PyDict.get (PyDict.remove d k) k' = PyDict.get d k'.
Proof.
  intros Hne. induction d as [|[k1 v1] d IH]; cbn; [reflexivity|].
  destruct (str_eqb k1 k) eqn:E; cbn.
  - apply str_eqb_eq in E. subst k1. now rewrite (str_eqb_neq Hne).
  - destruct (str_eqb k1 k'); [reflexivity|exact IH].
Qed.

End DictInvariants.

(* ================================================================= *)
(** ** The glossary keeps itself well formed *)

Lemma str_in_false (x : str) (l : list str) :
  str_in x l = false -> ~ In x l.
Proof.
  induction l as [|y l IH]; cbn; [tauto|].
  intros H. apply orb_false_iff in H. destruct H as [Hy Hl].
  intros [-> | Hin].
  - now rewrite str_eqb_refl in Hy.
  - now apply IH.
Qed.

Lemma NoDup_skipn_str (n : nat) (l : list str) :
  NoDup l -> NoDup (skipn n l).
Proof.
  intros H. rewrite <- (firstn_skipn n l) in H.
  exact (NoDup_app_remove_l _ _ H).
Qed.

Section ContextHistory.
Let tidy (h : list str) : Prop := (len h <= 5)%Z /\ NoDup h.

Lemma tidy_last5 (h : list str) : NoDup h -> tidy (last5 h).
Proof.
  intros Hnd. split.
  - unfold last5, len. rewrite length_skipn. lia.
  - now apply NoDup_skipn_str.
Qed.

Lemma add_context_tidy (ctx : PyDict.dict (list str)) (k0 c : str) :
  (forall k h, In (k, h) ctx -> tidy h) ->
  forall k h, In (k, h) (add_context ctx k0 c) -> tidy h.
Proof.
  intros Hctx. unfold add_context.
  set (ctx1 := if negb (PyDict.contains ctx k0)
               then PyDict.set ctx k0 [] else ctx).
  assert (H1 : forall k h, In (k, h) ctx1 -> tidy h).
  { intros k h. unfold ctx1.
    destruct (negb (PyDict.contains ctx k0)); [|apply Hctx].
    intros Hin. apply In_set in Hin. destruct Hin as [[_ ->] | Hin].
    - split; [cbn; lia|constructor].
    - now apply (Hctx k). }
  assert (Hh : tidy (PyDict.get_default ctx1 k0 [])).
  { unfold PyDict.get_default.
    destruct (PyDict.get ctx1 k0) as [h0|] eqn:E.
    - apply (H1 k0). now apply get_In.
    - split; [cbn; lia|constructor]. }
  set (history := PyDict.get_default ctx1 k0 []) in *.
  destruct (str_in c history) eqn:Hc; cbn [negb]; [exact H1|].
  assert (Hnd : NoDup (history ++ [c])).
  { apply NoDup_app; [apply Hh|repeat constructor; intros []|].
    intros x Hx [<- | []]. exact (str_in_false _ _ Hc Hx). }
  intros k h Hin.
  destruct (5 <? len (history ++ [c]))%Z eqn:L;
    apply In_set in Hin; destruct Hin as [[_ ->] | Hin];
    try (now apply (H1 k)).
  - now apply tidy_last5.
  - apply Z.ltb_ge in L. now split.
Qed.

End ContextHistory.

Lemma add_context_wf (ctx : PyDict.dict (list str)) (k0 c : str) :
  PyDict.wf ctx -> PyDict.wf (add_context ctx k0 c).
Proof.
  intros Hwf. unfold add_context.
  set (ctx1 := if negb (PyDict.contains ctx k0)
               then PyDict.set ctx k0 [] else ctx).
  assert (H1 : PyDict.wf ctx1).
  { unfold ctx1. destruct (negb (PyDict.contains ctx k0));
      [now apply wf_set|assumption]. }
  destruct (negb (str_in c (PyDict.get_default ctx1 k0 [])));
    [|assumption].
  destruct (5 <? _)%Z; now apply wf_set.
Qed.

(** [add_term] keeps a glossary well formed, whatever it is given. *)
Lemma add_term_well_formed
    (g : Glossary) (original translated : str) (context : option str) :
  well_formed g -> well_formed (add_term g original translated context).
Proof.
  intros Hwf. pose proof Hwf as (Ht & Hu & Hc & Hkeys & Hhist).
  unfold add_term.
  destruct (negb (truthy original) || negb (truthy (strip original))) eqn:G.
  { exact Hwf. }
  apply orb_false_iff in G. destruct G as [_ G].
  apply negb_false_iff, truthy_true in G.
  unfold well_formed. cbn [_terms _usage_count _context].
  split; [now apply wf_set|]. split; [now apply wf_set|].
  split; [|split].
  - destruct context as [c|]; [|assumption].
    destruct (truthy c); [now apply add_context_wf|assumption].
  - intros k v Hin. apply In_set in Hin.
    destruct Hin as [[-> ->] | Hin]; [|now apply Hkeys].
    split; [apply strip_idem|]. split; [assumption|].
    destruct (truthy translated); [apply strip_idem|reflexivity].
  - destruct context as [c|]; [|assumption].
    destruct (truthy c); [|assumption].
    now apply add_context_tidy.
Qed.

Lemma well_formed_empty : well_formed empty.
Proof.
  unfold well_formed, PyDict.wf. cbn.
  split; [constructor|]. split; [constructor|]. split; [constructor|].
  split; intros ? ? [].
Qed.

Lemma with_usage_well_formed (g : Glossary) (u : PyDict.dict Z) :
  well_formed g -> PyDict.wf u -> well_formed (with_usage g u).
Proof.
  intros (Ht & _ & Hc & Hkeys & Hhist) Hu.
  unfold well_formed, with_usage. cbn [_terms _usage_count _context].
  split; [assumption|]. split; [assumption|]. split; [assumption|].
  split; assumption.
Qed.

Lemma merge_step_well_formed (other : Glossary) (prefer_existing : bool)
    (self : Glossary) (item : str * str) :
  well_formed self ->
  well_formed (merge_step other prefer_existing self item).
Proof.
  intros Hwf. destruct item as [original translated]. unfold merge_step.
  assert (Hadd := @add_term_well_formed self original translated
                    None Hwf).
  destruct (PyDict.contains (_terms self) original).
  - destruct (negb prefer_existing || _);
      apply with_usage_well_formed; try assumption;
      apply wf_set; [apply Hadd|apply Hwf].
  - apply with_usage_well_formed; [assumption|]. apply wf_set. apply Hadd.
Qed.

(** [merge_glossary] keeps the receiving glossary well formed,
    whatever the other glossary holds: its terms come in through
    [add_term], which trims them and drops the blank ones. *)
Lemma merge_glossary_well_formed
    (self other : Glossary) (prefer_existing : bool) :
  well_formed self ->
  well_formed (merge_glossary self other prefer_existing).
Proof.
  unfold merge_glossary, get_all_terms, PyDict.items.
  revert self. induction (_terms other) as [|item l IH];
    intros self Hwf; cbn [fold_left]; [assumption|].
  apply IH. now apply merge_step_well_formed.
Qed.



(** X3. A blank string is never a term of a well formed glossary. *)
Theorem blank_term_is_unknown (g : Glossary) (original : str) :
  well_formed g ->
  strip original = [] ->
  has_term g original = false /\ get_translation g original = None.
Proof.
  intros (_ & _ & _ & Hkeys & _) Hblank.
  unfold has_term, get_translation. rewrite Hblank. cbn [truthy negb].
  rewrite orb_true_r. split; [|reflexivity].
  destruct (truthy original); [|reflexivity].
  unfold PyDict.contains.
  destruct (PyDict.get (_terms g) []) as [v|] eqn:E; [|reflexivity].
  apply get_In in E. destruct (Hkeys _ _ E) as (_ & Hne & _).
  now contradiction Hne.
Qed.

Lemma blank_term_is_unknown_witness :
  strip (lit "  ") = []
  /\ has_term local_glossary (lit "  ") = false
  /\ get_translation local_glossary (lit "  ") = None.
Proof.
  split; [reflexivity|].
  apply blank_term_is_unknown; [|reflexivity].
  apply add_term_well_formed. exact well_formed_empty.
Defined.

Lemma remove_term_well_formed (g : Glossary) (original : str) :
  well_formed g -> well_formed (snd (remove_term g original)).
Proof.
  intros Hwf. pose proof Hwf as (Ht & Hu & Hc & Hkeys & Hhist).
  unfold remove_term.
  destruct (negb (truthy original) || negb (truthy (strip original)));
    [exact Hwf|].
  destruct (PyDict.contains (_terms g) (strip original)); [|exact Hwf].
  unfold well_formed. cbn [snd _terms _usage_count _context].
  split; [now apply wf_remove|]. split; [now apply wf_remove|].
  split; [now apply wf_remove|]. split.
  - intros k v Hin. apply In_remove in Hin. now apply Hkeys.
  - intros k h Hin. apply In_remove in Hin. now apply (Hhist k).
Qed.

(** X1. Starting from a well formed glossary, [add_term], [remove_term],
    [merge_glossary] (whatever the other glossary holds) and [clear] all
    leave a well formed glossary. *)
Theorem glossary_operations_preserve_well_formed
    (g other : Glossary) (original translated : str)
    (context : option str) (prefer_existing : bool) :
  well_formed g ->
  well_formed (add_term g original translated context)
  /\ well_formed (snd (remove_term g original))
  /\ well_formed (merge_glossary g other prefer_existing)
  /\ well_formed (clear g).
Proof.
  intros Hwf. split; [now apply add_term_well_formed|].
  split; [now apply remove_term_well_formed|].
  split; [now apply merge_glossary_well_formed|].
  exact well_formed_empty.
Qed.

Lemma glossary_operations_preserve_well_formed_witness :
  well_formed two_contexts
  /\ well_formed (add_term two_contexts (lit "  Bren ") (lit " Bren-x ")
                    (Some (lit "third")))
  /\ well_formed (snd (remove_term two_contexts (lit "  Bren ")))
  /\ well_formed (merge_glossary two_contexts remote_glossary false)
  /\ well_formed (clear two_contexts).
Proof.
  assert (H : well_formed two_contexts).
  { repeat apply add_term_well_formed. exact well_formed_empty. }
  split; [exact H|].
  exact (@glossary_operations_preserve_well_formed two_contexts
           remote_glossary (lit "  Bren ") (lit " Bren-x ")
           (Some (lit "third")) false H).
Defined.

(* ================================================================= *)
(** ** The glossary: what one call changes and what it leaves *)

(** The key the look-ups use for a term. *)
Lemma lookup_key (original : str) :
  (if truthy original then strip original else []) = strip original.
Proof. destruct original; reflexivity. Qed.

(** X4. Each [add_term] on a term that is not blank counts one use more
    and replaces the translation by the trimmed new one: the last write
    wins, and a new translation that is blank leaves the term without a
    usable translation. *)
Theorem add_term_counts_and_overwrites
    (g : Glossary) (original translated : str) (context : option str) :
  strip original <> [] ->
  get_usage_count (add_term g original translated context) original
  = (get_usage_count g original + 1)%Z
  /\ get_translation (add_term g original translated context) original
     = if truthy (strip translated) then Some (strip translated) else None.
Proof.
  intros Horig. unfold get_usage_count, get_translation, add_term.
  rewrite (guard_nonblank _ Horig), !lookup_key.
  cbn [_terms _usage_count]. split.
  - apply get_default_set_same.
  - rewrite get_set_same. destruct translated as [|c tr]; [reflexivity|].
    cbn [truthy]. rewrite strip_idem.
    now destruct (truthy (strip (c :: tr))).
Qed.

Lemma add_term_counts_and_overwrites_witness :
  strip hero <> []
  /\ get_usage_count (add_term local_glossary hero (lit " Aria-2 ") None) hero
     = 2%Z
  /\ get_translation (add_term local_glossary hero (lit " Aria-2 ") None) hero
     = Some (lit "Aria-2").
Proof.
  split; [discriminate|].
  apply (@add_term_counts_and_overwrites local_glossary hero
           (lit " Aria-2 ") None).
  discriminate.
Defined.

Lemma add_context_frame (ctx : PyDict.dict (list str)) (k c k' : str) :
  k <> k' ->
  PyDict.get (add_context ctx k c) k' = PyDict.get ctx k'.
Proof.
  intros Hne. unfold add_context.
  set (ctx1 := if negb (PyDict.contains ctx k)
               then PyDict.set ctx k [] else ctx).
  assert (H1 : PyDict.get ctx1 k' = PyDict.get ctx k').
  { unfold ctx1. destruct (negb (PyDict.contains ctx k));
      [now apply get_set_other|reflexivity]. }
  destruct (negb (str_in c (PyDict.get_default ctx1 k [])));
    [|assumption].
  destruct (5 <? _)%Z; now rewrite get_set_other.
Qed.

(** X5. [add_term] on one term leaves every other term as it was: its
    translation, its presence, its count and its context history. *)
Theorem add_term_leaves_other_terms
    (g : Glossary) (original translated : str) (context : option str)
    (other_term : str) :
  strip other_term <> strip original ->
  get_translation (add_term g original translated context) other_term
  = get_translation g other_term
  /\ has_term (add_term g original translated context) other_term
     = has_term g other_term
  /\ get_usage_count (add_term g original translated context) other_term
     = get_usage_count g other_term
  /\ get_context (add_term g original translated context) other_term
     = get_context g other_term.
Proof.
  intros Hne. assert (Hne' : strip original <> strip other_term) by congruence.
  unfold add_term.
  destruct (negb (truthy original) || negb (truthy (strip original)));
    [now repeat split|].
  unfold get_translation, has_term, get_usage_count, get_context,
    PyDict.contains, PyDict.get_default.
  rewrite !lookup_key. cbn [_terms _usage_count _context].
  rewrite !get_set_other by assumption.
  repeat split.
  destruct context as [c|]; [|reflexivity].
  destruct (truthy c); [|reflexivity].
  now rewrite add_context_frame.
Qed.

Lemma add_term_leaves_other_terms_witness :
  strip hero <> strip (lit " Bren ")
  /\ get_translation (add_term local_glossary (lit " Bren ") (lit "B")
                        (Some (lit "ctx"))) hero
     = Some (lit "Aria-local")
  /\ get_usage_count (add_term local_glossary (lit " Bren ") (lit "B")
                        (Some (lit "ctx"))) hero
     = 1%Z.
Proof.
  split; [discriminate|].
  destruct (@add_term_leaves_other_terms local_glossary (lit " Bren ")
              (lit "B") (Some (lit "ctx")) hero) as (Ht & _ & Hu & _).
  - discriminate.
  - split; [exact Ht|exact Hu].
Defined.

Lemma has_term_nonblank (g : Glossary) (original : str) :
  well_formed g -> has_term g original = true -> strip original <> [].
Proof.
  intros (_ & _ & _ & Hkeys & _). unfold has_term, PyDict.contains.
  destruct (truthy original); [|discriminate].
  destruct (PyDict.get (_terms g) (strip original)) as [v|] eqn:E;
    [|discriminate].
  intros _. apply get_In in E. now destruct (Hkeys _ _ E) as (_ & Hne & _).
Qed.

(** X6. [remove_term] answers whether the term was there. Afterwards the
    term is unknown; when it was there its count and its history are
    gone with it, when it was not the glossary is the same; the other
    terms keep their translation and their count. *)
Theorem remove_term_forgets_the_term (g : Glossary) (original : str) :
  well_formed g ->
  fst (remove_term g original) = has_term g original
  /\ has_term (snd (remove_term g original)) original = false
  /\ get_translation (snd (remove_term g original)) original = None
  /\ (has_term g original = true ->
      get_usage_count (snd (remove_term g original)) original = 0%Z
      /\ get_context (snd (remove_term g original)) original = [])
  /\ (has_term g original = false -> snd (remove_term g original) = g)
  /\ (forall other_term, strip other_term <> strip original ->
      get_translation (snd (remove_term g original)) other_term
      = get_translation g other_term
      /\ get_usage_count (snd (remove_term g original)) other_term
         = get_usage_count g other_term).
Proof.
  intros Hwf. pose proof Hwf as (Ht & Hu & Hc & Hkeys & _).
  destruct (has_term g original) eqn:Hhas.
  - pose proof (has_term_nonblank _ Hwf Hhas) as Hne.
    unfold has_term in Hhas. rewrite (nonblank_truthy _ Hne) in Hhas.
    unfold remove_term. rewrite (guard_nonblank _ Hne), Hhas.
    cbn [fst snd].
    unfold has_term, get_translation, get_usage_count, get_context,
      PyDict.contains, PyDict.get_default.
    rewrite (guard_nonblank _ Hne), (nonblank_truthy _ Hne).
    cbn [_terms _usage_count _context].
    rewrite !get_remove_same by assumption.
    repeat split; try discriminate.
    + rewrite get_remove_other by congruence. reflexivity.
    + rewrite lookup_key.
      rewrite get_remove_other by congruence. reflexivity.
  - assert (E : remove_term g original = (false, g)).
    { unfold remove_term, has_term in *.
      destruct (negb (truthy original) || negb (truthy (strip original)))
        eqn:G; [reflexivity|].
      apply orb_false_iff in G. destruct G as [G _].
      apply negb_false_iff in G. rewrite G in Hhas. now rewrite Hhas. }
    rewrite E. cbn [fst snd]. repeat split; try discriminate.
    + exact Hhas.
    + unfold get_translation, has_term, PyDict.contains in *.
      destruct (negb (truthy original) || negb (truthy (strip original)))
        eqn:G; [reflexivity|].
      apply orb_false_iff in G. destruct G as [G _].
      apply negb_false_iff in G. rewrite G in Hhas.
      now destruct (PyDict.get (_terms g) (strip original)).
Qed.

Lemma remove_term_forgets_the_term_witness :
  well_formed two_contexts
  /\ fst (remove_term two_contexts hero) = true
  /\ has_term (snd (remove_term two_contexts hero)) hero = false
  /\ get_usage_count (snd (remove_term two_contexts hero)) hero = 0%Z
  /\ get_context (snd (remove_term two_contexts hero)) hero = [].
Proof.
  assert (H : well_formed two_contexts).
  { repeat apply add_term_well_formed. exact well_formed_empty. }
  split; [exact H|].
  destruct (@remove_term_forgets_the_term two_contexts hero H)
    as (Hr & Hh & _ & Hgone & _).
  destruct (Hgone eq_refl) as [Hu Hc].
  split; [exact Hr|]. split; [exact Hh|]. split; [exact Hu|exact Hc].
Defined.

(* ================================================================= *)
(** ** merge_glossary: new terms, untouched terms, contexts *)

Lemma well_formed_keys_trimmed (g : Glossary) :
  well_formed g ->
  forall k, In k (PyDict.keys (_terms g)) -> strip k = k.
Proof.
  intros (_ & _ & _ & Hkeys & _) k Hin.
  apply in_map_iff in Hin. destruct Hin as ([k' v] & E & Hin).
  cbn in E. subst k'. now destruct (Hkeys _ _ Hin).
Qed.

Lemma get_none_absent {V} (d : PyDict.dict V) (k : str) :
  PyDict.get d k = None -> ~ In k (PyDict.keys d).
Proof.
  induction d as [|[k0 v0] d IH]; cbn; [tauto|].
  destruct (str_eqb k0 k) eqn:E; [discriminate|].
  intros H [-> | Hin]; [now rewrite str_eqb_refl in E|now apply IH].
Qed.

(** The turn of the loop on a term this glossary does not have. *)
Lemma merge_step_new (other : Glossary) (prefer_existing : bool)
    (self : Glossary) (k v2 : str) :
  strip k = k -> k <> [] ->
  PyDict.get (_terms self) k = None ->
  PyDict.get (_terms (merge_step other prefer_existing self (k, v2))) k
  = Some (if truthy v2 then strip v2 else [])
  /\ PyDict.get_default
       (_usage_count (merge_step other prefer_existing self (k, v2))) k 0%Z
     = get_usage_count other k.
Proof.
  intros Htrim Hne Hget. unfold merge_step, PyDict.contains.
  rewrite Hget. unfold add_term. rewrite Htrim.
  apply truthy_true in Hne. rewrite Hne.
  cbn [negb orb with_usage _terms _usage_count].
  now rewrite get_set_same, get_default_set_same.
Qed.

(** X7. A term that only the other glossary has arrives with the
    translation and the usage count it has there, for either value of
    [prefer_existing]. *)
Theorem merge_glossary_brings_new_terms
    (self other : Glossary) (prefer_existing : bool) (k v2 : str) :
  well_formed other ->
  PyDict.get (_terms other) k = Some v2 ->
  PyDict.get (_terms self) k = None ->
  PyDict.get (_terms (merge_glossary self other prefer_existing)) k
  = Some v2
  /\ get_usage_count (merge_glossary self other prefer_existing) k
     = get_usage_count other k.
Proof.
  intros Hwf Hother Hself.
  pose proof (well_formed_keys_trimmed Hwf) as Htrim.
  destruct Hwf as (Hnd & _ & _ & Hkeys & _).
  destruct (Hkeys _ _ (get_In _ _ Hother)) as (Hk & Hne & Hv2).
  unfold merge_glossary, get_all_terms, PyDict.items.
  destruct (get_split _ _ Hother) as (l1 & l2 & E & Hnot1).
  assert (Hnot2 : ~ In k (map fst l2)).
  { rewrite E in Hnd. exact (wf_split _ _ _ _ Hnd). }
  assert (Htrim1 : forall k', In k' (map fst l1) -> strip k' = k').
  { intros k' Hin. apply Htrim. rewrite E. unfold PyDict.keys.
    rewrite map_app. apply in_or_app. now left. }
  assert (Htrim2 : forall k', In k' (map fst l2) -> strip k' = k').
  { intros k' Hin. apply Htrim. rewrite E. unfold PyDict.keys.
    rewrite map_app. apply in_or_app. right. now right. }
  rewrite !get_usage_count_trimmed by assumption.
  rewrite <- get_usage_count_trimmed with (g := other) by assumption.
  rewrite E, fold_left_app. cbn [fold_left].
  destruct (@merge_loop_frame other prefer_existing k l1 self Htrim1 Hnot1)
    as [Ht1 _].
  set (s1 := fold_left (merge_step other prefer_existing) l1 self) in *.
  rewrite <- Ht1 in Hself.
  destruct (@merge_step_new other prefer_existing s1 k v2 Hk Hne Hself)
    as [Ht Hu].
  set (s2 := merge_step other prefer_existing s1 (k, v2)) in *.
  destruct (@merge_loop_frame other prefer_existing k l2 s2 Htrim2 Hnot2)
    as [Ht2 Hu2].
  split.
  - rewrite Ht2, Ht. f_equal.
    destruct v2; [reflexivity|exact Hv2].
  - unfold PyDict.get_default at 1. rewrite Hu2.
    fold (PyDict.get_default (_usage_count s2) k 0%Z). exact Hu.
Qed.

Lemma merge_glossary_brings_new_terms_witness :
  well_formed remote_glossary
  /\ PyDict.get (_terms (merge_glossary empty remote_glossary true)) hero
     = Some (lit "Aria-remote")
  /\ get_usage_count (merge_glossary empty remote_glossary true) hero
     = get_usage_count remote_glossary hero.
Proof.
  assert (H : well_formed remote_glossary).
  { apply add_term_well_formed. exact well_formed_empty. }
  split; [exact H|].
  apply (@merge_glossary_brings_new_terms empty remote_glossary true hero
           (lit "Aria-remote") H); reflexivity.
Defined.

(** X8. A term the other glossary does not have keeps its presence, its
    translation and its usage count through the merge. *)
Theorem merge_glossary_leaves_other_terms
    (self other : Glossary) (prefer_existing : bool) (original : str) :
  well_formed other ->
  has_term other original = false ->
  has_term (merge_glossary self other prefer_existing) original
  = has_term self original
  /\ get_translation (merge_glossary self other prefer_existing) original
     = get_translation self original
  /\ get_usage_count (merge_glossary self other prefer_existing) original
     = get_usage_count self original.
Proof.
  intros Hwf Hhas.
  assert (Hnot : ~ In (strip original) (PyDict.keys (_terms other))).
  { intros Hin.
    destruct (PyDict.get (_terms other) (strip original)) as [v|] eqn:E.
    - destruct Hwf as (_ & _ & _ & Hkeys & _).
      destruct (Hkeys _ _ (get_In _ _ E)) as (_ & Hne & _).
      unfold has_term, PyDict.contains in Hhas.
      rewrite (nonblank_truthy _ Hne), E in Hhas. discriminate.
    - exact (get_none_absent _ _ E Hin). }
  destruct (@merge_loop_frame other prefer_existing (strip original)
              (_terms other) self (well_formed_keys_trimmed Hwf) Hnot)
    as [Ht Hu].
  unfold merge_glossary, get_all_terms, PyDict.items.
  unfold has_term, get_translation, get_usage_count, PyDict.contains,
    PyDict.get_default.
  rewrite lookup_key, Ht, Hu. now repeat split.
Qed.

Lemma merge_glossary_leaves_other_terms_witness :
  well_formed remote_glossary
  /\ has_term remote_glossary (lit "Bren") = false
  /\ get_translation
       (merge_glossary (add_term local_glossary (lit "Bren") (lit "B") None)
          remote_glossary false) (lit "Bren")
     = Some (lit "B").
Proof.
  assert (H : well_formed remote_glossary).
  { apply add_term_well_formed. exact well_formed_empty. }
  split; [exact H|]. split; [reflexivity|].
  destruct (@merge_glossary_leaves_other_terms
              (add_term local_glossary (lit "Bren") (lit "B") None)
              remote_glossary false (lit "Bren") H eq_refl)
    as (_ & Ht & _).
  exact Ht.
Defined.

(** X9. The merge never touches a context history: those of the other
    glossary are not brought over. *)
Theorem merge_glossary_keeps_contexts
    (self other : Glossary) (prefer_existing : bool) :
  _context (merge_glossary self other prefer_existing) = _context self.
Proof.
  unfold merge_glossary, get_all_terms, PyDict.items.
  revert self. induction (_terms other) as [|[k v] l IH]; intros self;
    cbn [fold_left]; [reflexivity|].
  rewrite IH. unfold merge_step.
  assert (Hadd : _context (add_term self k v None) = _context self).
  { unfold add_term.
    now destruct (negb (truthy k) || negb (truthy (strip k))). }
  destruct (PyDict.contains (_terms self) k); [|exact Hadd].
  destruct (negb prefer_existing || _); [exact Hadd|reflexivity].
Qed.

(* ================================================================= *)
(** ** save_to_file and load_from_file: failures and other files *)





(* ================================================================= *)
(** ** split_text_into_chunks: nothing lost, nothing twice *)

Lemma join_cons (sep p : str) (rest : list str) :
  rest <> [] -> join sep (p :: rest) = p ++ sep ++ join sep rest.
Proof. destruct rest; [intros H; now contradiction H|reflexivity]. Qed.

Lemma split2_from_join (a b : char) (n : nat) : forall s acc,
  (List.length s <= n)%nat ->
  join [a; b] (split2_from a b acc s) = rev acc ++ s.
Proof.
  induction n as [|n IH]; intros s acc Hlen.
  - destruct s; [|cbn in Hlen; lia]. cbn. now rewrite app_nil_r.
  - destruct s as [|c [|d s'']].
    + cbn. now rewrite app_nil_r.
    + reflexivity.
    + cbn in Hlen.
      change (split2_from a b acc (c :: d :: s''))
        with (if char_eqb c a && char_eqb d b
              then rev acc :: split2_from a b [] s''
              else split2_from a b (c :: acc) (d :: s'')).
      destruct (char_eqb c a && char_eqb d b) eqn:E.
      * apply andb_true_iff in E. destruct E as [Ec Ed].
        apply char_eqb_eq in Ec, Ed. subst c d.
        rewrite join_cons by apply split2_from_nonempty.
        rewrite IH by lia. reflexivity.
      * rewrite IH by (cbn; lia). cbn. now rewrite <- app_assoc.
Qed.

(** X12. The sentences, put back together with [". "] between them, are
    the text with its newlines turned into spaces. *)
Theorem sentences_join_back (text : str) :
  join dot_space (sentences_of text) = replace_char newline space text.
Proof.
  unfold sentences_of, split2, dot_space.
  now rewrite (@split2_from_join period space
                 (List.length (replace_char newline space text))).
Qed.

Section ChunkerGroups.
Variable M : Z.

(** The buffer a group of consecutive sentences fills, and the unit
    it is flushed as. *)
Let buffer_of (grp : list str) : str :=
  List.concat (map (fun s => s ++ dot_space) grp).
Let unit_of (grp : list str) : str := strip (buffer_of grp).

Lemma buffer_of_snoc (grp : list str) (s : str) :
  buffer_of (grp ++ [s]) = buffer_of grp ++ s ++ dot_space.
Proof.
  unfold buffer_of. rewrite map_app, concat_app. cbn.
  now rewrite app_nil_r.
Qed.

Lemma buffer_of_truthy (grp : list str) :
  truthy (buffer_of grp) = match grp with [] => false | _ :: _ => true end.
Proof.
  destruct grp as [|s grp]; [reflexivity|].
  unfold buffer_of. cbn. unfold dot_space. now destruct s.
Qed.

(** The state of the loop after the sentences [done]: the groups
    already flushed and the group still in the buffer. *)
Let grouped (done : list str) (st : list str * str) : Prop :=
  exists groups grp,
    List.concat groups ++ grp = done
    /\ Forall (fun g => g <> []) groups
    /\ fst st = map unit_of groups
    /\ snd st = buffer_of grp.

Lemma chunk_step_grouped (done : list str) (st : list str * str) (s : str) :
  grouped done st -> grouped (done ++ [s]) (chunk_step M st s).
Proof.
  destruct st as [chunks cur].
  intros (groups & grp & Hdone & Hne & Hchunks & Hcur).
  cbn [fst snd] in Hchunks, Hcur. subst chunks cur done.
  unfold chunk_step.
  destruct (len (buffer_of grp) + len s + 2 <=? M)%Z.
  - exists groups, (grp ++ [s]). cbn [fst snd].
    repeat split; try assumption.
    + now rewrite app_assoc.
    + now rewrite buffer_of_snoc.
  - rewrite buffer_of_truthy. destruct grp as [|s0 grp].
    + exists groups, [s]. cbn [fst snd]. repeat split; try assumption.
      * now rewrite app_nil_r.
      * unfold buffer_of. cbn. now rewrite app_nil_r.
    + exists (groups ++ [s0 :: grp]), [s]. cbn [fst snd].
      repeat split.
      * rewrite concat_app. cbn. now rewrite app_nil_r.
      * apply Forall_app. split; [assumption|].
        constructor; [discriminate|constructor].
      * now rewrite map_app.
      * unfold buffer_of. cbn. now rewrite app_nil_r.
Qed.

Lemma chunk_loop_grouped (l : list str) : forall done st,
  grouped done st -> grouped (done ++ l) (fold_left (chunk_step M) l st).
Proof.
  induction l as [|s l IH]; intros done st H; cbn [fold_left].
  - now rewrite app_nil_r.
  - replace (done ++ s :: l) with ((done ++ [s]) ++ l)
      by now rewrite <- app_assoc.
    apply IH. now apply chunk_step_grouped.
Qed.

(** X13. The units are the sentences of the text, cut into consecutive
    groups that are not empty: every sentence is in exactly one unit, in
    its place, followed by [". "], and each unit is the trimmed
    concatenation of its group. *)
Theorem split_text_into_chunks_groups (text : str) :
  exists groups : list (list str),
    List.concat groups = sentences_of text
    /\ Forall (fun g => g <> []) groups
    /\ split_text_into_chunks text M
       = map (fun grp =>
                strip (List.concat (map (fun s => s ++ dot_space) grp)))
             groups.
Proof.
  unfold split_text_into_chunks.
  assert (H0 : grouped [] ([], [])).
  { exists [], []. repeat split. constructor. }
  pose proof (chunk_loop_grouped (sentences_of text) H0) as H.
  cbn [app] in H.
  destruct (fold_left (chunk_step M) (sentences_of text) ([], []))
    as [chunks cur].
  destruct H as (groups & grp & Hdone & Hne & Hchunks & Hcur).
  cbn [fst snd] in Hchunks, Hcur. subst chunks cur.
  rewrite buffer_of_truthy. destruct grp as [|s0 grp].
  - exists groups. rewrite app_nil_r in Hdone. now repeat split.
  - exists (groups ++ [s0 :: grp]). repeat split.
    + rewrite concat_app. cbn. now rewrite app_nil_r.
    + apply Forall_app. split; [assumption|].
      constructor; [discriminate|constructor].
    + now rewrite map_app.
Qed.

End ChunkerGroups.

(** A text cut into three units with room for two short sentences. *)
Example split_groups_example :
  split_text_into_chunks (lit "One. Two. Three. Four. Five") 12
  = [lit "One. Two."; lit "Three."; lit "Four. Five."].
Proof. reflexivity. Qed.

Section ChunkerFits.
Variable M : Z.

Let buffer_of (grp : list str) : str :=
  List.concat (map (fun s => s ++ dot_space) grp).

Lemma buffer_of_app (a b : list str) :
  buffer_of (a ++ b) = buffer_of a ++ buffer_of b.
Proof. unfold buffer_of. now rewrite map_app, concat_app. Qed.

Lemma buffer_of_join (l : list str) :
  l <> [] -> buffer_of l = join dot_space l ++ dot_space.
Proof.
  induction l as [|s l IH]; [intros H; now contradiction H|].
  intros _. destruct l as [|s' l].
  - unfold buffer_of. cbn. now rewrite app_nil_r.
  - change (buffer_of (s :: s' :: l))
      with ((s ++ dot_space) ++ buffer_of (s' :: l)).
    rewrite IH by discriminate.
    change (join dot_space (s :: s' :: l))
      with (s ++ dot_space ++ join dot_space (s' :: l)).
    now rewrite <- !app_assoc.
Qed.

Lemma len_nonneg {A} (l : list A) : (0 <= len l)%Z.
Proof. unfold len. lia. Qed.

(** While everything still to come fits, the loop only appends. *)
Lemma chunk_loop_fits (rest : list str) : forall done,
  (len (buffer_of (done ++ rest)) <= M)%Z ->
  fold_left (chunk_step M) rest ([], buffer_of done)
  = ([], buffer_of (done ++ rest)).
Proof.
  induction rest as [|s rest IH]; intros done Hfit; cbn [fold_left].
  - now rewrite app_nil_r.
  - replace (done ++ s :: rest) with ((done ++ [s]) ++ rest) in *
      by now rewrite <- app_assoc.
    assert (E : buffer_of (done ++ [s]) = buffer_of done ++ s ++ dot_space).
    { rewrite buffer_of_app. unfold buffer_of at 2. cbn.
      now rewrite app_nil_r. }
    unfold chunk_step at 2.
    assert (Hs : (len (buffer_of done) + len s + 2 <= M)%Z).
    { rewrite buffer_of_app, len_app, E, !len_app in Hfit.
      pose proof (len_nonneg (buffer_of rest)).
      change (len dot_space) with 2%Z in Hfit. lia. }
    apply Z.leb_le in Hs. rewrite Hs, <- E. now apply IH.
Qed.

(** X14. A text of at most [M - 2] characters is not split: the only
    unit is the text with its newlines turned into spaces, followed by a
    period and trimmed. *)
Theorem split_text_into_chunks_short_text (text : str) :
  (len text + 2 <= M)%Z ->
  split_text_into_chunks text M
  = [strip (replace_char newline space text ++ dot_space)].
Proof.
  intros Hfit. unfold split_text_into_chunks.
  assert (Hbuf : buffer_of (sentences_of text)
                 = replace_char newline space text ++ dot_space).
  { rewrite buffer_of_join by apply sentences_of_nonempty.
    unfold sentences_of, split2, dot_space.
    now rewrite (@split2_from_join period space
                   (List.length (replace_char newline space text))). }
  change (@nil char) with (buffer_of []) at 1.
  rewrite chunk_loop_fits; cbn [app].
  - rewrite Hbuf.
    destruct (replace_char newline space text); reflexivity.
  - rewrite Hbuf, len_app. change (len dot_space) with 2%Z.
    assert (E : len (replace_char newline space text) = len text)
      by (unfold len, replace_char; now rewrite length_map).
    lia.
Qed.

End ChunkerFits.

Lemma split_text_into_chunks_short_text_witness :
  (len (lit "Hello. World.") + 2 <= 512)%Z
  /\ split_text_into_chunks (lit "Hello. World.") 512
     = [lit "Hello. World.."].
Proof.
  split; [vm_compute; discriminate|].
  apply (@split_text_into_chunks_short_text 512 (lit "Hello. World.")).
  vm_compute. discriminate.
Defined.

(* ================================================================= *)
(** ** Language detection: what can come back *)

Lemma argmax_from_in (rest : list (str * Z)) : forall best best_score,
  In (argmax_from best best_score rest) (best :: map fst rest).
Proof.
  induction rest as [|[k v] rest IH]; intros best best_score; cbn.
  - now left.
  - destruct (best_score <? v)%Z.
    + right. apply IH.
    + destruct (IH best best_score) as [H | H]; [now left|right; now right].
Qed.

Lemma max_key_in (scores : PyDict.dict Z) (k : str) :
  max_key scores = Some k -> In k (PyDict.keys scores).
Proof.
  destruct scores as [|[k0 v0] rest]; cbn; [discriminate|].
  intros H. injection H as <-. apply argmax_from_in.
Qed.

Lemma keys_map_values {A B} (f : str -> A -> B) (d : PyDict.dict A) :
  PyDict.keys (map (fun '(k, v) => (k, f k v)) d) = PyDict.keys d.
Proof.
  unfold PyDict.keys. rewrite map_map. apply map_ext. now intros [k v].
Qed.

Lemma script_sniffing_supported (text : str) :
  is_supported_language (script_sniffing text) = true.
Proof.
  unfold script_sniffing.
  repeat match goal with
         | |- context [any_in_range ?lo ?hi text] =>
             destruct (any_in_range lo hi text)
         end; reflexivity.
Qed.

Lemma patterns_supported :
  forallb is_supported_language (PyDict.keys patterns) = true.
Proof. vm_compute. reflexivity. Qed.

Lemma fallback_supported (W : World) (text : str) :
  is_supported_language (fallback_language_detection W text) = true.
Proof.
  unfold fallback_language_detection.
  destruct (negb (truthy text)); [reflexivity|].
  match goal with
  | |- context [max_key ?d] => set (scores := d)
  end.
  destruct (max_key scores) as [k|] eqn:E;
    [|apply script_sniffing_supported].
  destruct (0 <? PyDict.get_default scores k 0)%Z;
    [|apply script_sniffing_supported].
  apply max_key_in in E. unfold scores in E.
  rewrite (keys_map_values
             (fun _ words =>
                fold_left
                  (fun score word =>
                     (score + count (str_lower W text) word)%Z)
                  words 0%Z)) in E.
  pose proof patterns_supported as H. rewrite forallb_forall in H.
  now apply H.
Qed.

(** X15. The heuristic fallback always answers with one of the ten
    supported codes, whatever the text and whatever [str.lower] does;
    for the empty text the answer is ["en"]. *)
Theorem fallback_language_detection_supported (W : World) (text : str) :
  is_supported_language (fallback_language_detection W text) = true
  /\ fallback_language_detection W [] = lit "en".
Proof. split; [apply fallback_supported|reflexivity]. Qed.

(** X16. With [langdetect] installed, [detect_language] never answers
    with one of the two regional Chinese codes: the detector's answer is
    folded onto ["zh"], and the fallback only knows supported codes. *)
Theorem detect_language_folds_chinese (W : World) (text code : str)
    (detect : str -> result str) :
  langdetect W = Some detect ->
  detect_language W text = Ok code ->
  code <> lit "zh-cn" /\ code <> lit "zh-tw".
Proof.
  intros Hld. unfold detect_language, detect_body. rewrite Hld.
  destruct (negb (truthy text) || negb (truthy (strip text))).
  { intros H. injection H as <-. split; discriminate. }
  assert (Hfb : forall c,
            fallback_language_detection W (firstn 1000 (strip text)) = c ->
            c <> lit "zh-cn" /\ c <> lit "zh-tw").
  { intros c <-.
    pose proof (fallback_supported W (firstn 1000 (strip text))) as Hs.
    split; intros E; rewrite E in Hs; discriminate. }
  destruct (detect _) as [c0|e]; cbn [Py.bind try_except].
  - unfold PyDict.get_default, language_mapping. cbn [PyDict.get].
    destruct (str_eqb (lit "zh-cn") c0) eqn:E1.
    { intros H. injection H as <-. split; discriminate. }
    destruct (str_eqb (lit "zh-tw") c0) eqn:E2.
    { intros H. injection H as <-. split; discriminate. }
    intros H. injection H as <-.
    split; intros ->; [now rewrite str_eqb_refl in E1
                      |now rewrite str_eqb_refl in E2].
  - cbn [dispatch h_class h_body load_local_LangDetectException].
    destruct (isinstance e LangDetectException);
      [intros H; injection H as H; now apply Hfb|].
    destruct (isinstance e ImportError);
      [intros H; injection H as H; now apply Hfb|].
    rewrite isinstance_Exception.
    intros H; injection H as H; now apply Hfb.
Qed.

Lemma detect_language_folds_chinese_witness :
  detect_language
    {| str_lower := ascii_lower; str_upper := ascii_upper;
       langdetect := Some (fun _ => Ok (lit "zh-cn"));
       path_exists := fun _ => false;
       open_read := fun _ _ => Raise FileNotFoundError;
       onnxruntime := None;
       apply_emotion := fun s => Ok s |} (lit "text")
  = Ok (lit "zh")
  /\ lit "zh" <> lit "zh-cn" /\ lit "zh" <> lit "zh-tw".
Proof.
  split; [reflexivity|].
  apply (@detect_language_folds_chinese
           {| str_lower := ascii_lower; str_upper := ascii_upper;
              langdetect := Some (fun _ => Ok (lit "zh-cn"));
              path_exists := fun _ => false;
              open_read := fun _ _ => Raise FileNotFoundError;
              onnxruntime := None;
              apply_emotion := fun s => Ok s |}
           (lit "text") (lit "zh") (fun _ => Ok (lit "zh-cn")));
    reflexivity.
Defined.

(* ================================================================= *)
(** ** utils.read_text *)

Lemma read_loop_ends (W : World) (file_path last : str) (before : list str) :
  (exists content,
     read_loop W file_path last (before ++ [last]) = Ok (Some content))
  \/ read_loop W file_path last (before ++ [last]) = Raise Exception.
Proof.
  induction before as [|enc before IH]; cbn [app read_loop].
  - destruct (open_read W file_path last) as [content|e];
      cbn [Py.bind try_except dispatch h_class h_body].
    + left. now exists content.
    + right. rewrite str_eqb_refl, isinstance_Exception.
      now destruct (isinstance e UnicodeDecodeError).
  - destruct (open_read W file_path enc) as [content|e];
      cbn [Py.bind try_except dispatch h_class h_body].
    + left. now exists content.
    + rewrite isinstance_Exception.
      destruct (isinstance e UnicodeDecodeError); [|now right].
      destruct (str_eqb enc last); [now right|exact IH].
Qed.

(** X17. [read_text] raises [FileNotFoundError] exactly when the path
    does not exist; for a path that exists it returns a text or raises a
    plain [Exception], and it never returns [None]. *)
Theorem read_text_outcomes (W : World) (file_path encoding : str) :
  (path_exists W file_path = false
   /\ read_text W file_path encoding = Raise FileNotFoundError)
  \/ (path_exists W file_path = true
      /\ ((exists content,
             read_text W file_path encoding = Ok (Some content))
          \/ read_text W file_path encoding = Raise Exception)).
Proof.
  unfold read_text.
  destruct (path_exists W file_path); cbn [negb]; [right|left; now split].
  split; [reflexivity|].
  exact (read_loop_ends W file_path (lit "iso-8859-1")
           [encoding; utf_8; lit "latin-1"; lit "cp1252"]).
Qed.

(** X18. When the requested encoding does not decode the file and UTF-8
    does, the UTF-8 text is returned. *)
Theorem read_text_falls_back_to_utf_8
    (W : World) (file_path encoding content : str) :
  path_exists W file_path = true ->
  encoding <> lit "iso-8859-1" ->
  open_read W file_path encoding = Raise UnicodeDecodeError ->
  open_read W file_path utf_8 = Ok content ->
  read_text W file_path encoding = Ok (Some content).
Proof.
  intros Hex Henc Hfail Hok. unfold read_text. rewrite Hex.
  cbn [negb encodings last read_loop]. rewrite Hfail.
  cbn [Py.bind try_except dispatch h_class h_body].
  change (isinstance UnicodeDecodeError UnicodeDecodeError) with true.
  cbn iota. rewrite (str_eqb_neq Henc). now rewrite Hok.
Qed.

Lemma read_text_falls_back_to_utf_8_witness :
  read_text
    {| str_lower := ascii_lower; str_upper := ascii_upper;
       langdetect := None;
       path_exists := fun _ => true;
       open_read := fun _ enc =>
         if str_eqb enc utf_8 then Ok chapter_text
         else Raise UnicodeDecodeError;
       onnxruntime := None;
       apply_emotion := fun s => Ok s |} chapter_path (lit "ascii")
  = Ok (Some chapter_text).
Proof.
  apply read_text_falls_back_to_utf_8; try reflexivity. discriminate.
Defined.

(* ================================================================= *)
(** ** utils.clean_filename *)

Section StripChars.
Variable chars : str.

Lemma lstrip_chars_head (s : str) :
  lstrip_chars chars s = []
  \/ exists c r, lstrip_chars chars s = c :: r /\ char_in c chars = false.
Proof.
  induction s as [|c s IH]; cbn; [now left|].
  destruct (char_in c chars) eqn:E; [exact IH|].
  right. now exists c, s.
Qed.

Lemma lstrip_chars_keeps_last (x : str) (c : char) :
  char_in c chars = false ->
  exists y, lstrip_chars chars (x ++ [c]) = y ++ [c].
Proof.
  intros Hc. induction x as [|a x IH]; cbn.
  - rewrite Hc. now exists [].
  - destruct (char_in a chars); [exact IH|now exists (a :: x)].
Qed.

Lemma lstrip_chars_Forall (P : char -> Prop) (s : str) :
  Forall P s -> Forall P (lstrip_chars chars s).
Proof.
  induction 1 as [|c s Hc Hs IH]; cbn; [constructor|].
  destruct (char_in c chars); [exact IH|now constructor].
Qed.

Lemma strip_chars_Forall (P : char -> Prop) (s : str) :
  Forall P s -> Forall P (strip_chars chars s).
Proof.
  intros H. unfold strip_chars.
  apply lstrip_chars_Forall, Forall_rev, lstrip_chars_Forall, Forall_rev.
  exact H.
Qed.

(** What [strip(chars)] returns is empty, or begins and ends with a
    character that is not in [chars]. *)
Lemma strip_chars_ends (s : str) :
  strip_chars chars s = []
  \/ (exists c r, strip_chars chars s = c :: r /\ char_in c chars = false)
     /\ (exists y c, strip_chars chars s = y ++ [c]
                     /\ char_in c chars = false).
Proof.
  unfold strip_chars.
  destruct (lstrip_chars_head (rev s)) as [-> | (c & r & -> & Hc)];
    [now left|].
  cbn [rev].
  destruct (lstrip_chars_keeps_last (rev r) c Hc) as [y Ey].
  rewrite Ey.
  destruct (lstrip_chars_head (rev r ++ [c])) as [E | Hhead].
  - rewrite Ey in E. destruct y; discriminate.
  - right. rewrite Ey in Hhead. split; [exact Hhead|now exists y, c].
Qed.

Lemma strip_chars_fixed (s : str) :
  (exists c r, s = c :: r /\ char_in c chars = false) ->
  (exists y c, s = y ++ [c] /\ char_in c chars = false) ->
  strip_chars chars s = s.
Proof.
  intros (c & r & -> & Hc) (y & c' & E & Hc').
  unfold strip_chars. rewrite E, rev_app_distr. cbn [rev app].
  cbn [lstrip_chars]. rewrite Hc'.
  change (rev (c' :: rev y)) with (rev (rev y) ++ [c']).
  rewrite rev_involutive, <- E. cbn. now rewrite Hc.
Qed.

End StripChars.

(** What the nine replacements do to one character. *)
Lemma replace_all_map (chars : str) (u : char) : forall s,
  fold_left (fun cleaned ch => replace_char ch u cleaned) chars s
  = map (fun c =>
           fold_left (fun x ch => if char_eqb x ch then u else x) chars c)
        s.
Proof.
  induction chars as [|ch chars IH]; intros s; cbn [fold_left].
  - now rewrite map_id.
  - rewrite IH. unfold replace_char. now rewrite map_map.
Qed.

Lemma scrubbed_char_valid (c : char) :
  char_in
    (fold_left (fun x ch => if char_eqb x ch then underscore else x)
       invalid_chars c)
    invalid_chars = false.
Proof.
  unfold invalid_chars. cbn [fold_left].
  destruct (char_eqb c 60%N) eqn:E1; [reflexivity|].
  destruct (char_eqb c 62%N) eqn:E2; [reflexivity|].
  destruct (char_eqb c 58%N) eqn:E3; [reflexivity|].
  destruct (char_eqb c 34%N) eqn:E4; [reflexivity|].
  destruct (char_eqb c 47%N) eqn:E5; [reflexivity|].
  destruct (char_eqb c 92%N) eqn:E6; [reflexivity|].
  destruct (char_eqb c 124%N) eqn:E7; [reflexivity|].
  destruct (char_eqb c 63%N) eqn:E8; [reflexivity|].
  destruct (char_eqb c 42%N) eqn:E9; [reflexivity|].
  unfold char_in. cbn [existsb].
  now rewrite E1, E2, E3, E4, E5, E6, E7, E8, E9.
Qed.

Lemma valid_char_kept (c : char) :
  char_in c invalid_chars = false ->
  fold_left (fun x ch => if char_eqb x ch then underscore else x)
    invalid_chars c = c.
Proof.
  unfold char_in, invalid_chars. cbn [existsb fold_left]. intros H.
  repeat (apply orb_false_iff in H; destruct H as [? H]).
  repeat match goal with
         | E : char_eqb c _ = false |- _ => rewrite E; clear E
         end.
  reflexivity.
Qed.

(** The shape of a cleaned name. *)
Lemma clean_filename_facts (filename : str) :
  Forall (fun c => char_in c invalid_chars = false) (clean_filename filename)
  /\ (exists c r, clean_filename filename = c :: r
                  /\ char_in c (lit " .") = false)
  /\ (exists y c, clean_filename filename = y ++ [c]
                  /\ char_in c (lit " .") = false).
Proof.
  unfold clean_filename. rewrite replace_all_map.
  match goal with
  | |- context [strip_chars ?cs ?s] => set (cleaned := strip_chars cs s)
  end.
  destruct (truthy cleaned) eqn:T; cbn [negb].
  - split.
    + unfold cleaned. apply strip_chars_Forall.
      apply Forall_forall. intros c Hin. apply in_map_iff in Hin.
      destruct Hin as (c0 & <- & _). apply scrubbed_char_valid.
    + unfold cleaned in *.
      match goal with
      | |- context [strip_chars ?cs ?s] =>
          destruct (strip_chars_ends cs s) as [E | H]
      end; [now rewrite E in T|exact H].
  - split; [|split].
    + apply Forall_forall. intros c Hin. vm_compute in Hin.
      repeat (destruct Hin as [<- | Hin]; [reflexivity|]). contradiction.
    + exists 117%N, (lit "nnamed_file"). now split.
    + exists (lit "unnamed_fil"), 101%N. now split.
Qed.

(** X19. A cleaned file name is never empty, holds none of the nine
    invalid characters, and neither begins nor ends with a space or a
    dot. *)
Theorem clean_filename_safe (filename : str) :
  clean_filename filename <> []
  /\ Forall (fun c => char_in c invalid_chars = false)
            (clean_filename filename)
  /\ (exists c r, clean_filename filename = c :: r
                  /\ char_in c (lit " .") = false)
  /\ (exists y c, clean_filename filename = y ++ [c]
                  /\ char_in c (lit " .") = false).
Proof.
  destruct (clean_filename_facts filename) as (Hvalid & Hhead & Hlast).
  split; [|now repeat split].
  destruct Hhead as (c & r & -> & _). discriminate.
Qed.

(** X20. Cleaning a cleaned name changes nothing. *)
Theorem clean_filename_idempotent (filename : str) :
  clean_filename (clean_filename filename) = clean_filename filename.
Proof.
  destruct (clean_filename_facts filename) as (Hvalid & Hhead & Hlast).
  set (r := clean_filename filename) in *.
  unfold clean_filename at 1. rewrite replace_all_map.
  assert (E : map (fun c =>
                     fold_left
                       (fun x ch => if char_eqb x ch then underscore else x)
                       invalid_chars c) r = r).
  { clearbody r. clear Hhead Hlast.
    induction Hvalid as [|c r Hc Hr IH]; cbn [map]; [reflexivity|].
    now rewrite IH, (valid_char_kept _ Hc). }
  rewrite E, (@strip_chars_fixed (lit " .") r Hhead Hlast).
  destruct Hhead as (c & r' & -> & _). reflexivity.
Qed.

Example clean_filename_examples :
  clean_filename (lit " ..my:file?.txt. ") = lit "my_file_.txt"
  /\ clean_filename (lit " . . ") = lit "unnamed_file"
  /\ clean_filename (lit "a/b\c") = lit "a_b_c".
Proof. repeat split. Qed.

(* ================================================================= *)
(** ** utils.validate_file_path *)

Lemma starts_with_app (p b : str) : starts_with p (p ++ b) = true.
Proof.
  induction p as [|c p IH]; cbn; [reflexivity|].
  apply andb_true_iff. split; [now apply char_eqb_eq|exact IH].
Qed.

Lemma starts_with_nil_l (s : str) : starts_with [] s = true.
Proof. now destruct s. Qed.

Lemma substring_occurs (p a b : str) : substring p (a ++ p ++ b) = true.
Proof.
  induction a as [|c a IH]; cbn [app].
  - destruct (p ++ b) eqn:E; cbn [substring];
      rewrite <- E, starts_with_app; reflexivity.
  - cbn [substring]. rewrite IH. apply orb_true_r.
Qed.

(** X21. A path that [validate_file_path] accepts is not empty, exists
    when existence is asked for, has no [".."] anywhere and does not
    begin with ["/"]; the message is then empty. *)
Theorem validate_file_path_accepts
    (W : World) (file_path : str) (must_exist : bool) :
  fst (validate_file_path W file_path must_exist) = true ->
  file_path <> []
  /\ (must_exist = true -> path_exists W file_path = true)
  /\ (forall a b, file_path <> a ++ lit ".." ++ b)
  /\ (forall rest, file_path <> lit "/" ++ rest)
  /\ snd (validate_file_path W file_path must_exist) = [].
Proof.
  unfold validate_file_path.
  destruct (truthy file_path) eqn:T; cbn [negb]; [|discriminate].
  destruct (must_exist && negb (path_exists W file_path)) eqn:Ex;
    [discriminate|].
  destruct (substring (lit "..") file_path) eqn:Sub; [discriminate|].
  destruct (starts_with (lit "/") file_path) eqn:Abs; [discriminate|].
  cbn [orb fst snd]. intros _.
  split; [now apply truthy_true|]. split.
  - intros ->. cbn in Ex. now apply negb_false_iff in Ex.
  - split; [|split; [|reflexivity]].
    + intros a b ->. now rewrite substring_occurs in Sub.
    + intros rest ->. now rewrite starts_with_app in Abs.
Qed.

Lemma validate_file_path_accepts_witness :
  fst (validate_file_path english_world chapter_path true) = true
  /\ chapter_path <> []
  /\ (forall a b, chapter_path <> a ++ lit ".." ++ b).
Proof.
  split; [reflexivity|].
  destruct (@validate_file_path_accepts english_world chapter_path true
              eq_refl) as (Hne & _ & Hdots & _).
  split; [exact Hne|exact Hdots].
Defined.

Example validate_file_path_rejects :
  fst (validate_file_path english_world (lit "../chapter1.txt") false)
  = false
  /\ fst (validate_file_path english_world (lit "/etc/passwd") false)
     = false
  /\ fst (validate_file_path english_world [] false) = false
  /\ fst (validate_file_path english_world (lit "missing.txt") true)
     = false.
Proof. repeat split. Qed.

(* ================================================================= *)
(** ** translate_chapter: failures, reuse, the glossary it leaves *)

Lemma translate_text_chunk_returns (W : World) (chunk : str)
    (m : option session) (s t : str) :
  exists translated, translate_text_chunk W chunk m s t = Ok translated.
Proof.
  unfold translate_text_chunk. destruct m as [model|]; [|now eexists].
  rewrite try_except_Exception.
  destruct (run model _); cbn; now eexists.
Qed.

Lemma translate_one_returns (W : World) (m : option session) (s t : str)
    (g : Glossary) (chunk : str) :
  exists translated g',
    translate_one W m s t g chunk = (Ok translated, g').
Proof.
  unfold translate_one.
  set (reused := match get_translation g chunk with
                 | Some tr => if truthy tr then Some tr else None
                 | None => None
                 end).
  destruct reused as [tr|].
  - cbn [Py.bind]. rewrite try_except_Exception.
    destruct (apply_emotion W tr); now eexists _, _.
  - destruct (translate_text_chunk_returns W chunk m s t) as [tr ->].
    cbn [Py.bind]. rewrite try_except_Exception.
    destruct (apply_emotion W tr); now eexists _, _.
Qed.

Lemma translate_chunks_returns (W : World) (m : option session) (s t : str)
    (chunks : list str) : forall g acc,
  exists translated g',
    translate_chunks W m s t chunks g acc = (Ok translated, g')
    /\ List.length translated = (List.length acc + List.length chunks)%nat.
Proof.
  induction chunks as [|chunk chunks IH]; intros g acc; cbn [translate_chunks].
  - exists acc, g. split; [reflexivity|cbn; lia].
  - destruct (translate_one_returns W m s t g chunk) as (tr & g1 & ->).
    destruct (IH g1 (acc ++ [tr])) as (out & g' & -> & Hlen).
    exists out, g'. split; [reflexivity|].
    rewrite Hlen, length_app. cbn. lia.
Qed.

(** X22. Once the chapter file is read and [langdetect] is installed,
    [translate_chapter] returns a text: a missing model, a failing model
    and a failing tone pass are all absorbed. *)
Theorem translate_chapter_returns
    (W : World) (file_path target_lang original_text : str)
    (detect : str -> result str) (chapter_glossary : Glossary) :
  read_text W file_path utf_8 = Ok (Some original_text) ->
  langdetect W = Some detect ->
  raises (fst (translate_chapter W file_path target_lang chapter_glossary))
  = false.
Proof.
  intros Hread Hld. unfold translate_chapter, open_chapter.
  rewrite Hread. cbn [try_except].
  destruct (negb (truthy (strip original_text))); [reflexivity|].
  pose proof (detect_language_with_langdetect W original_text Hld) as Hdet.
  destruct (detect_language W original_text) as [source_lang|e];
    [|discriminate Hdet].
  destruct (str_eqb source_lang target_lang); [reflexivity|].
  pose proof (load_translation_model_never_raises W source_lang target_lang)
    as Hload.
  destruct (load_translation_model W source_lang target_lang) as [m|e];
    [|discriminate Hload].
  destruct (translate_chunks_returns W m source_lang target_lang
              (split_text_into_chunks original_text default_max_chunk_size)
              chapter_glossary []) as (out & g' & -> & _).
  reflexivity.
Qed.

Lemma translate_chapter_returns_witness :
  read_text english_world chapter_path utf_8 = Ok (Some chapter_text)
  /\ raises (fst (translate_chapter english_world chapter_path (lit "es")
                    empty)) = false.
Proof.
  split; [reflexivity|].
  apply (@translate_chapter_returns english_world chapter_path (lit "es")
           chapter_text (fun _ => Ok (lit "en")) empty); reflexivity.
Defined.

(** X23. Without a text there is nothing to translate: a path that does
    not exist raises [FileNotFoundError], a file that is blank gives the
    empty string, and in both cases the chapter glossary is left as it
    was. *)
Theorem translate_chapter_without_text
    (W : World) (file_path target_lang : str) (chapter_glossary : Glossary) :
  (path_exists W file_path = false ->
   translate_chapter W file_path target_lang chapter_glossary
   = (Raise FileNotFoundError, chapter_glossary))
  /\ (forall original_text,
        read_text W file_path utf_8 = Ok (Some original_text) ->
        strip original_text = [] ->
        translate_chapter W file_path target_lang chapter_glossary
        = (Ok [], chapter_glossary)).
Proof.
  unfold translate_chapter, open_chapter. split.
  - intros Hex. unfold read_text. rewrite Hex. reflexivity.
  - intros original_text Hread Hblank. rewrite Hread. cbn [try_except].
    rewrite Hblank. reflexivity.
Qed.

Lemma translate_chapter_without_text_witness :
  path_exists bare_world chapter_path = false
  /\ translate_chapter bare_world chapter_path (lit "es") local_glossary
     = (Raise FileNotFoundError, local_glossary).
Proof.
  split; [reflexivity|].
  apply (proj1 (translate_chapter_without_text bare_world chapter_path
                  (lit "es") local_glossary)).
  reflexivity.
Defined.

Lemma translate_one_well_formed (W : World) (m : option session) (s t : str)
    (g : Glossary) (chunk : str) :
  well_formed g -> well_formed (snd (translate_one W m s t g chunk)).
Proof.
  intros Hwf. unfold translate_one.
  destruct (match get_translation g chunk with
            | Some tr => if truthy tr then Some tr else None
            | None => None
            end); [exact Hwf|].
  destruct (translate_text_chunk W chunk m s t); cbn [snd];
    [now apply add_term_well_formed|exact Hwf].
Qed.

Lemma translate_chunks_well_formed (W : World) (m : option session)
    (s t : str) (chunks : list str) : forall g acc,
  well_formed g ->
  well_formed (snd (translate_chunks W m s t chunks g acc)).
Proof.
  induction chunks as [|chunk chunks IH]; intros g acc Hwf;
    cbn [translate_chunks]; [exact Hwf|].
  pose proof (translate_one_well_formed W m s t chunk Hwf) as H1.
  destruct (translate_one W m s t g chunk) as [[tr|e] g1]; cbn [snd] in H1.
  - now apply IH.
  - exact H1.
Qed.

(** X24. Whatever happens during the call, [translate_chapter] hands
    back a well formed chapter glossary when it was given one. *)
Theorem translate_chapter_keeps_glossary_well_formed
    (W : World) (file_path target_lang : str) (chapter_glossary : Glossary) :
  well_formed chapter_glossary ->
  well_formed
    (snd (translate_chapter W file_path target_lang chapter_glossary)).
Proof.
  intros Hwf. unfold translate_chapter.
  destruct (open_chapter W file_path) as [e| |text source_lang];
    try exact Hwf.
  destruct (str_eqb source_lang target_lang); [exact Hwf|].
  destruct (load_translation_model W source_lang target_lang) as [m|e];
    [|exact Hwf].
  pose proof (translate_chunks_well_formed W m source_lang target_lang
                (split_text_into_chunks text default_max_chunk_size)
                [] Hwf) as H.
  now destruct (translate_chunks W m source_lang target_lang _ _ _)
    as [[out|e] g'].
Qed.

Lemma translate_chapter_keeps_glossary_well_formed_witness :
  well_formed empty
  /\ well_formed
       (snd (translate_chapter english_world chapter_path (lit "es") empty)).
Proof.
  split; [exact well_formed_empty|].
  exact (@translate_chapter_keeps_glossary_well_formed english_world
           chapter_path (lit "es") empty well_formed_empty).
Defined.

Lemma get_translation_after_add_term
    (g : Glossary) (original translated : str) :
  strip original <> [] -> strip translated <> [] ->
  get_translation (add_term g original translated None) original
  = Some (strip translated).
Proof.
  intros Horig Htr. unfold get_translation, add_term.
  rewrite (guard_nonblank _ Horig). cbn [_terms].
  rewrite get_set_same, (nonblank_truthy _ Htr), strip_idem.
  apply truthy_true in Htr. now rewrite Htr.
Qed.

(** X25. A chunk the backend has translated is committed to the chapter
    glossary, and when the same chunk comes again its committed
    translation (the trimmed one) is used, whatever model is at hand
    then, and the glossary is not written again. *)
Theorem translated_chunk_is_reused
    (W : World) (m m' : option session) (s t : str) (g : Glossary)
    (chunk translated : str) :
  strip chunk <> [] ->
  get_translation g chunk = None ->
  translate_text_chunk W chunk m s t = Ok translated ->
  strip translated <> [] ->
  snd (translate_one W m s t g chunk) = add_term g chunk translated None
  /\ translate_one W m' s t (add_term g chunk translated None) chunk
     = (try_except (apply_emotion W (strip translated))
          [Handler (Ok Exception) (fun _ => Ok (strip translated))],
        add_term g chunk translated None).
Proof.
  intros Hchunk Hnone Htr Hne. split.
  - unfold translate_one. now rewrite Hnone, Htr.
  - unfold translate_one.
    rewrite (@get_translation_after_add_term g chunk translated Hchunk Hne).
    apply truthy_true in Hne. now rewrite Hne.
Qed.

Lemma translated_chunk_is_reused_witness :
  translate_one bare_world (Some failing_session) (lit "en") (lit "es")
    (add_term empty (lit "Hello.") (lit "[ES] Hello.") None) (lit "Hello.")
  = (Ok (lit "[ES] Hello."),
     add_term empty (lit "Hello.") (lit "[ES] Hello.") None).
Proof.
  apply (proj2 (@translated_chunk_is_reused bare_world None
                  (Some failing_session) (lit "en") (lit "es") empty
                  (lit "Hello.") (lit "[ES] Hello.")
                  ltac:(discriminate) eq_refl eq_refl ltac:(discriminate))).
Defined.

(* ================================================================= *)
(** ** novel_translate.analyze_novel_languages *)

Lemma In_keys_set {V} (d : PyDict.dict V) (k k' : str) (v : V) :
  In k' (PyDict.keys (PyDict.set d k v)) -> k' = k \/ In k' (PyDict.keys d).
Proof.
  intros Hin. apply in_map_iff in Hin. destruct Hin as ([k0 v0] & E & Hin).
  cbn in E. subst k0. apply In_set in Hin.
  destruct Hin as [[-> _] | Hin]; [now left|right].
  exact (In_keys _ _ _ Hin).
Qed.

Section NovelSampling.
Variable W : World.

(** Every language counted was detected for one of the files seen. *)
Let accounted (seen : list (str * str)) (counts : PyDict.dict Z) : Prop :=
  forall lang, In lang (PyDict.keys counts) ->
    exists chapter, In chapter seen
                    /\ sample_language W (snd chapter) = Ok lang.

Lemma count_sample_accounted (seen : list (str * str))
    (counts : PyDict.dict Z) (chapter : str * str) :
  accounted seen counts ->
  accounted (seen ++ [chapter]) (count_sample W counts chapter).
Proof.
  intros Hacc lang Hin. unfold count_sample in Hin.
  destruct chapter as [filename file_path].
  assert (Hold : In lang (PyDict.keys counts) ->
                 exists ch, In ch (seen ++ [(filename, file_path)])
                            /\ sample_language W (snd ch) = Ok lang).
  { intros H. destruct (Hacc lang H) as (ch & Hch & E).
    exists ch. split; [apply in_or_app; now left|exact E]. }
  rewrite try_except_Exception in Hin.
  destruct (sample_language W file_path) as [detected|e] eqn:E;
    cbn [Py.bind] in Hin; [|now apply Hold].
  apply In_keys_set in Hin. destruct Hin as [-> | Hin]; [|now apply Hold].
  exists (filename, file_path). split; [|exact E].
  apply in_or_app. right. now left.
Qed.

Lemma sampling_accounted (l : list (str * str)) : forall seen counts,
  accounted seen counts ->
  accounted (seen ++ l) (fold_left (count_sample W) l counts).
Proof.
  induction l as [|chapter l IH]; intros seen counts Hacc; cbn [fold_left].
  - now rewrite app_nil_r.
  - replace (seen ++ chapter :: l) with ((seen ++ [chapter]) ++ l)
      by now rewrite <- app_assoc.
    apply IH. now apply count_sample_accounted.
Qed.

Lemma analyze_novel_languages_answer_aux (chapter_files : list (str * str)) :
  analyze_novel_languages W chapter_files = lit "en"
  \/ exists chapter,
       In chapter (firstn 3 chapter_files)
       /\ sample_language W (snd chapter)
          = Ok (analyze_novel_languages W chapter_files).
Proof.
  unfold analyze_novel_languages.
  assert (H0 : accounted [] []) by (intros lang []).
  pose proof (sampling_accounted (firstn 3 chapter_files) H0) as Hacc.
  cbn [app] in Hacc.
  destruct (max_key (fold_left (count_sample W) (firstn 3 chapter_files) []))
    as [lang|] eqn:E; [|now left].
  right. apply Hacc. now apply max_key_in.
Qed.


(** X26. The language [analyze_novel_languages] answers is ["en"], or it
    was detected for the first 1000 characters of one of the first three
    chapter files. *)
Theorem analyze_novel_languages_answer (chapter_files : list (str * str)) :
  analyze_novel_languages W chapter_files = lit "en"
  \/ exists chapter,
       In chapter (firstn 3 chapter_files)
       /\ In chapter chapter_files
       /\ sample_language W (snd chapter)
          = Ok (analyze_novel_languages W chapter_files).
Proof.
  destruct (analyze_novel_languages_answer_aux chapter_files)
    as [E | (chapter & Hin & E)]; [now left|right].
  exists chapter. split; [exact Hin|]. split; [|exact E].
  rewrite <- (firstn_skipn 3 chapter_files). apply in_or_app. now left.
Qed.

(** X27. Without [langdetect] every sample that is not blank fails
    inside [detect_language] and is skipped, so the answer is ["en"]
    whatever the chapters hold. *)
Theorem analyze_novel_languages_without_langdetect
    (chapter_files : list (str * str)) :
  langdetect W = None ->
  analyze_novel_languages W chapter_files = lit "en".
Proof.
  intros Hld.
  destruct (analyze_novel_languages_answer_aux chapter_files)
    as [E | (chapter & _ & E)]; [exact E|].
  unfold sample_language in E.
  destruct (read_text W (snd chapter) utf_8) as [[text|]|e];
    cbn [Py.bind] in E; try discriminate.
  destruct (truthy (strip (firstn 1000 text))) eqn:T.
  - now rewrite (detect_language_without_langdetect W _ Hld T) in E.
  - assert (Hb : strip (firstn 1000 text) = [])
      by (destruct (strip (firstn 1000 text)); [reflexivity|discriminate]).
    rewrite (detect_language_blank W _ Hb) in E. now injection E.
Qed.

End NovelSampling.

Lemma analyze_novel_languages_without_langdetect_witness :
  langdetect
    {| str_lower := ascii_lower; str_upper := ascii_upper;
       langdetect := None;
       path_exists := path_exists english_world;
       open_read := open_read english_world;
       onnxruntime := None;
       apply_emotion := fun s => Ok s |} = None
  /\ analyze_novel_languages
       {| str_lower := ascii_lower; str_upper := ascii_upper;
          langdetect := None;
          path_exists := path_exists english_world;
          open_read := open_read english_world;
          onnxruntime := None;
          apply_emotion := fun s => Ok s |}
       [(lit "chapter1.txt", chapter_path)]
     = lit "en".
Proof.
  split; [reflexivity|].
  apply analyze_novel_languages_without_langdetect. reflexivity.
Defined.

(** With [langdetect] installed the sampled chapter decides. *)
Example analyze_novel_languages_detects :
  analyze_novel_languages
    {| str_lower := ascii_lower; str_upper := ascii_upper;
       langdetect := Some (fun _ => Ok (lit "fr"));
       path_exists := path_exists english_world;
       open_read := open_read english_world;
       onnxruntime := None;
       apply_emotion := fun s => Ok s |}
    [(lit "chapter1.txt", chapter_path); (lit "gone.txt", lit "gone.txt")]
  = lit "fr".
Proof. reflexivity. Qed.
